(** * View-Finder: the entity-resolution pipeline

    A shallow embedding of the Python sources [utils/text_utils.py],
    [utils/llm_utils.py], [utils/wiki_utils.py] and of the entity-merge
    step of [app.py], together with the properties of the specification
    that were checked against them.

    Python [str] values are sequences of Unicode code points; they are
    modelled as lists of [N].  The tables of the [unicodedata] module and
    the case mappings of [str] are library data, not code of this
    repository: they enter as section variables, and every theorem states
    the facts about them that it relies on. *)

From Stdlib Require Import List NArith ZArith Bool Ascii String Lia.
From Stdlib Require Import Permutation Sorted.
Import ListNotations.

Set Implicit Arguments.
Local Open Scope N_scope.

(* ===================================================================== *)
(** ** Python strings *)
(* ===================================================================== *)

Definition ustr := list N.

(** An ASCII literal of the source, as a sequence of code points. *)
Definition lit (s : string) : ustr := map N_of_ascii (list_ascii_of_string s).

(** The code point of the double quote character. *)
Definition dquote : N := 34.
Definition squote : N := 39.

Fixpoint ustr_eqb (a b : ustr) : bool :=
  match a, b with
  | [], [] => true
  | x :: a', y :: b' => N.eqb x y && ustr_eqb a' b'
  | _, _ => false
  end.

(** Truthiness of a [str]: the empty string is falsy. *)
Definition nonempty (s : ustr) : bool :=
  match s with [] => false | _ :: _ => true end.

(** [str.isspace] on one code point ([Py_UNICODE_ISSPACE]): the ASCII
    controls 0x09-0x0D and 0x1C-0x1F, the space, and the Unicode
    separators. *)
Definition py_isspace (c : N) : bool :=
  ((9 <=? c) && (c <=? 13)) || ((28 <=? c) && (c <=? 32))
  || (c =? 133) || (c =? 160) || (c =? 5760)
  || ((8192 <=? c) && (c <=? 8202))
  || (c =? 8232) || (c =? 8233) || (c =? 8239) || (c =? 8287)
  || (c =? 12288).

Definition is_ascii (c : N) : bool := c <? 128.

Fixpoint dropwhile (p : N -> bool) (s : ustr) : ustr :=
  match s with
  | [] => []
  | c :: s' => if p c then dropwhile p s' else s
  end.

Definition lstrip_by (p : N -> bool) (s : ustr) : ustr := dropwhile p s.
Definition rstrip_by (p : N -> bool) (s : ustr) : ustr :=
  rev (dropwhile p (rev s)).
Definition strip_by (p : N -> bool) (s : ustr) : ustr :=
  rstrip_by p (lstrip_by p s).

(** [s.strip()] *)
Definition strip (s : ustr) : ustr := strip_by py_isspace s.

(** [s.strip(chars)] with the double and the single quote as [chars]. *)
Definition is_quote (c : N) : bool := (c =? dquote) || (c =? squote).
Definition strip_quotes (s : ustr) : ustr := strip_by is_quote s.

(** [str.lower] on a string of ASCII characters: only A-Z change. *)
Definition ascii_lower_char (c : N) : N :=
  if (65 <=? c) && (c <=? 90) then c + 32 else c.
Definition ascii_lower (s : ustr) : ustr := map ascii_lower_char s.

(** [s.split()]: the maximal runs of non-whitespace characters. *)
Fixpoint split_ws (s : ustr) : list ustr :=
  match s with
  | [] => []
  | c :: s' =>
      if py_isspace c then split_ws s'
      else match s' with
           | [] => [[c]]
           | c' :: _ =>
               if py_isspace c' then [c] :: split_ws s'
               else match split_ws s' with
                    | w :: ws => (c :: w) :: ws
                    | [] => [[c]]
                    end
           end
  end.

(** [sep.join(words)] *)
Fixpoint join (sep : ustr) (words : list ustr) : ustr :=
  match words with
  | [] => []
  | [w] => w
  | w :: ws => w ++ sep ++ join sep ws
  end.

(** Lexicographic order of [str] values, by code point. *)
Fixpoint ustr_leb (a b : ustr) : bool :=
  match a, b with
  | [], _ => true
  | _ :: _, [] => false
  | x :: a', y :: b' =>
      if x <? y then true else if y <? x then false else ustr_leb a' b'
  end.

(* ===================================================================== *)
(** ** utils/text_utils.py *)
(* ===================================================================== *)

Section TextUtils.

(** [unicodedata.normalize("NFKD", _)] *)
Variable nfkd : ustr -> ustr.
(** [str.capitalize] *)
Variable capitalize : ustr -> ustr.

(** [.encode("ascii", "ignore").decode("ascii")] keeps exactly the code
    points below 128. *)
Definition encode_ascii_ignore (s : ustr) : ustr := filter is_ascii s.

Definition normalize_text (txt : ustr) : ustr :=
  if negb (nonempty txt) then []
  else strip (ascii_lower (encode_ascii_ignore (nfkd txt))).

Definition in_list_case_insensitive (item : ustr) (item_list : list ustr) : bool :=
  let norm_item := normalize_text item in
  existsb (fun x => ustr_eqb (normalize_text x) norm_item) item_list.

(** The specification's [sameEntity]. *)
Definition sameEntity (a b : ustr) : bool :=
  ustr_eqb (normalize_text a) (normalize_text b).

(** [string.capwords(s)] with the default separator. *)
Definition capwords (s : ustr) : ustr :=
  join (lit " ") (map capitalize (split_ws s)).

Definition special_words : list ustr :=
  map lit ["Of"; "And"; "The"; "In"; "On"; "At"; "To"; "For"; "With"; "By"]%string.

Definition in_words (w : ustr) (ws : list ustr) : bool :=
  existsb (ustr_eqb w) ws.

(** The loop over [range(1, len(words))]: every word but the first. *)
Definition lower_special (words : list ustr) : list ustr :=
  match words with
  | [] => []
  | w0 :: rest =>
      w0 :: map (fun w => if in_words w special_words then ascii_lower w else w) rest
  end.

Definition to_title_case (text : ustr) : ustr :=
  if negb (nonempty text) then text
  else
    let text := capwords text in
    let words := split_ws text in
    join (lit " ") (lower_special words).

End TextUtils.

(* ===================================================================== *)
(** ** app.py: the entity-merge step *)
(* ===================================================================== *)

(** A Python [dict] from [str] to [str], in insertion order. *)
Definition dict := list (ustr * ustr).

(** [d[k] = v]: an existing key keeps its position and takes the new
    value; a new key goes to the end. *)
Fixpoint dict_set (d : dict) (k v : ustr) : dict :=
  match d with
  | [] => [(k, v)]
  | (k', v') :: d' =>
      if ustr_eqb k' k then (k', v) :: d' else (k', v') :: dict_set d' k v
  end.

Fixpoint dict_get (d : dict) (k : ustr) : option ustr :=
  match d with
  | [] => None
  | (k', v') :: d' => if ustr_eqb k' k then Some v' else dict_get d' k
  end.

Definition dict_values (d : dict) : list ustr := map snd d.

(** [sorted(l, key=key)]: a stable sort. *)
Fixpoint insert_by (key : ustr -> ustr) (x : ustr) (l : list ustr) : list ustr :=
  match l with
  | [] => [x]
  | y :: l' => if ustr_leb (key x) (key y) then x :: l else y :: insert_by key x l'
  end.

Definition sorted_by (key : ustr -> ustr) (l : list ustr) : list ustr :=
  fold_right (insert_by key) [] l.

Section Merge.

Variable nfkd : ustr -> ustr.
(** [str.lower], the sort key of the merged list. *)
Variable str_lower : ustr -> ustr.

(** [if entity:] skips [None] and the empty string. *)
Definition truthy (entity : option ustr) : bool :=
  match entity with Some e => nonempty e | None => false end.

(** One iteration of the inner loop. *)
Definition merge_entity (combined : dict) (entity : option ustr) : dict :=
  match entity with
  | Some e => if nonempty e then dict_set combined (normalize_text nfkd e) e
              else combined
  | None => combined
  end.

Definition combined_entities
    (answer_entities question_entities : list ustr) (main_topic : option ustr)
    : dict :=
  fold_left
    (fun combined entity_list => fold_left merge_entity entity_list combined)
    [map Some answer_entities; map Some question_entities; [main_topic]]
    [].

Definition unique_entities_to_fetch
    (answer_entities question_entities : list ustr) (main_topic : option ustr)
    : list ustr :=
  sorted_by str_lower
    (dict_values (combined_entities answer_entities question_entities main_topic)).

(** The candidates in the order in which the loops visit them. *)
Definition candidates
    (answer_entities question_entities : list ustr) (main_topic : option ustr)
    : list (option ustr) :=
  map Some answer_entities ++ map Some question_entities ++ [main_topic].

Definition has_key (k : ustr) (entity : option ustr) : bool :=
  match entity with
  | Some e => nonempty e && ustr_eqb (normalize_text nfkd e) k
  | None => false
  end.

(** The specification's reading: the first candidate with a given key. *)
Definition first_seen (k : ustr) (cands : list (option ustr)) : option ustr :=
  match find (has_key k) cands with Some e => e | None => None end.

(** The last candidate with a given key. *)
Definition last_seen (k : ustr) (cands : list (option ustr)) : option ustr :=
  first_seen k (rev cands).

End Merge.

(** A fragment of the Unicode decomposition table: the accented letters
    of the Latin-1 Supplement (U+00C0 to U+00FF), each a base letter
    followed by one combining mark; every other code point is left as it
    is.  On text made of ASCII characters and of these letters the
    function below is NFKD.  It serves as a concrete instance of the
    [nfkd] parameter in examples. *)
Definition latin1_mark (c : N) : option (N * N) :=
  let grave := 768 in let acute := 769 in let circ := 770 in
  let tilde := 771 in let diaer := 776 in let ring := 778 in
  let cedil := 807 in
  let vowel (base off : N) : option (N * N) :=
    match off with
    | 0 => Some (base, grave) | 1 => Some (base, acute)
    | 2 => Some (base, circ) | 3 => Some (base, diaer)
    | _ => None
    end%N in
  let letter (up : N) (d : N) : option (N * N) :=
    (* [up] is 65 for the capitals, 97 for the small letters; [d] is the
       offset from U+00C0, respectively U+00E0 *)
    match d with
    | 0 => Some (up, grave) | 1 => Some (up, acute) | 2 => Some (up, circ)
    | 3 => Some (up, tilde) | 4 => Some (up, diaer) | 5 => Some (up, ring)
    | 7 => Some (up + 2, cedil)
    | 8 | 9 | 10 | 11 => vowel (up + 4) (d - 8)
    | 12 | 13 | 14 | 15 => vowel (up + 8) (d - 12)
    | 17 => Some (up + 13, tilde)
    | 18 => Some (up + 14, grave) | 19 => Some (up + 14, acute)
    | 20 => Some (up + 14, circ) | 21 => Some (up + 14, tilde)
    | 22 => Some (up + 14, diaer)
    | 25 | 26 | 27 | 28 => vowel (up + 20) (d - 25)
    | 29 => Some (up + 24, acute)
    | _ => None
    end%N in
  if (192 <=? c) && (c <=? 221) then letter 65 (c - 192)
  else if (224 <=? c) && (c <=? 253) then letter 97 (c - 224)
  else if c =? 255 then Some (121, diaer)
  else None.

Definition nfkd_latin1 (s : ustr) : ustr :=
  flat_map (fun c => match latin1_mark c with
                     | Some (b, m) => [b; m]
                     | None => [c]
                     end) s.

(** The letter without its accent, for the letters of the table. *)
Definition base_letter (c : N) : N :=
  match latin1_mark c with
  | Some (b, _) => b
  | None => c
  end.

(** A spelling without its accents. *)
Definition unaccent (s : ustr) : ustr := map base_letter s.

(* ===================================================================== *)
(** ** Exceptions, external calls and the trace of a run *)
(* ===================================================================== *)

(** The classes of [Exception] that the handlers of the source tell
    apart; [OtherError] stands for every other subclass.  Only
    [Exception] and its subclasses are modelled, which is what the
    external calls raise and what [except Exception] catches. *)
Inductive exn_class :=
| ZeroViewsError
| APIError
| JSONDecodeError
| IndexError
| OverflowError
| OtherError.

(** An exception instance; [exn_str] is what [str(e)] and an f-string
    render. *)
Record exn := Exn { exn_cls : exn_class; exn_str : ustr }.

Definition is_zero_views (e : exn) : bool :=
  match exn_cls e with ZeroViewsError => true | _ => false end.
Definition is_api_error (e : exn) : bool :=
  match exn_cls e with APIError => true | _ => false end.
Definition is_json_decode_error (e : exn) : bool :=
  match exn_cls e with JSONDecodeError => true | _ => false end.

(** What a run does to the outside world, in order. *)
Inductive event :=
| EvMessagesCreate (model : ustr) (max_tokens : Z) (prompt : ustr)
| EvPage (title : ustr)
| EvNow (days : Z)
| EvPerArticle (title start_ end_ : ustr)
| EvStError (msg : ustr)
| EvStWarning (msg : ustr)
| EvRaise (e : exn).

Definition trace := list event.

(** A computation with a local mutable store [L], a trace, and
    exceptions.  The store and the trace survive a raise, as the
    mutations of a Python object do. *)
Definition M (L A : Type) : Type := trace * L -> (exn + A) * (trace * L).

Definition ret {L A} (a : A) : M L A := fun s => (inr a, s).

Definition bind {L A B} (m : M L A) (k : A -> M L B) : M L B :=
  fun s => match m s with
           | (inr a, s') => k a s'
           | (inl e, s') => (inl e, s')
           end.

Notation "x <- m ;; k" := (bind m (fun x => k))
  (at level 61, m at next level, right associativity).
Notation "m ;;; k" := (bind m (fun _ => k))
  (at level 61, right associativity).

Definition emit {L} (ev : event) : M L unit :=
  fun s => (inr tt, (fst s ++ [ev], snd s)).

Definition raise {L A} (e : exn) : M L A :=
  fun s => (inl e, (fst s ++ [EvRaise e], snd s)).

(** The outcome of a library call that has already been made. *)
Definition lift_result {L A} (r : exn + A) : M L A :=
  match r with inr a => ret a | inl e => raise e end.

(** An external call: it is recorded, and its outcome may depend on
    everything that happened before. *)
Definition ask {L A} (ev : event) (oracle : trace -> exn + A) : M L A :=
  fun s => (emit ev ;;; lift_result (oracle (fst s))) s.

(** [try: body] followed by [except] clauses: [handlers e] is the body
    of the first clause that matches [e], if any. *)
Definition try_except {L A} (body : M L A) (handlers : exn -> option (M L A))
    : M L A :=
  fun s => match body s with
           | (inr a, s') => (inr a, s')
           | (inl e, s') =>
               match handlers e with
               | Some h => h s'
               | None => (inl e, s')
               end
           end.

Definition modify {L} (f : L -> L) : M L unit :=
  fun s => (inr tt, (fst s, f (snd s))).

(** Running a computation that has no local store inside one that has. *)
Definition lift_io {L A} (m : M unit A) : M L A :=
  fun s => match m (fst s, tt) with
           | (r, (tr, _)) => (r, (tr, snd s))
           end.

Definition st_error {L} (msg : ustr) : M L unit := emit (EvStError msg).
Definition st_warning {L} (msg : ustr) : M L unit := emit (EvStWarning msg).

(** [client.messages.create(model=.., max_tokens=.., messages=[user prompt])]
    answers with the texts of the content blocks of the response, or
    raises. *)
Definition Client := trace -> ustr -> Z -> ustr -> exn + list ustr.

Definition messages_create {L} (client : Client)
    (model : ustr) (max_tokens : Z) (prompt : ustr) : M L (list ustr) :=
  ask (EvMessagesCreate model max_tokens prompt)
      (fun tr => client tr model max_tokens prompt).

(** [response.content[0].text] *)
Definition content0_text {L} (content : list ustr) : M L ustr :=
  match content with
  | t :: _ => ret t
  | [] => raise (Exn IndexError (lit "list index out of range"))
  end.

Definition nl : ustr := [10].
Definition HUMAN_PROMPT : ustr := nl ++ nl ++ lit "Human:".
Definition AI_PROMPT : ustr := nl ++ nl ++ lit "Assistant:".

(* ===================================================================== *)
(** ** utils/llm_utils.py *)
(* ===================================================================== *)

(** A decoded JSON value; a number is kept as its text. *)
#[local] Unset Elimination Schemes.
Inductive json :=
| JNull
| JBool (b : bool)
| JNumber (text : ustr)
| JString (s : ustr)
| JArray (items : list json)
| JObject (members : list (ustr * json)).
#[local] Set Elimination Schemes.

Definition q : ustr := [dquote].
Definition indent : ustr := lit "    ".
Definition haiku : ustr := lit "claude-3-haiku-20240307".

(** The pattern [^\s*(\[.*?\])\s*$] with [re.DOTALL], searched in the
    response: group 1 runs from the first to the last character that is
    not whitespace, and there is a match exactly when these are an
    opening and a closing bracket at different positions. *)
Definition re_search_json_list (text : ustr) : option ustr :=
  let body := strip text in
  match body with
  | 91 :: rest => match rev rest with
                  | 93 :: _ => Some body
                  | _ => None
                  end
  | _ => None
  end.

Definition has_member (key : ustr) (members : list (ustr * json)) : bool :=
  existsb (fun kv => ustr_eqb (fst kv) key) members.

(** [isinstance(item, dict) and "question" in item and "answer" in item] *)
Definition is_qa_object (item : json) : bool :=
  match item with
  | JObject members =>
      has_member (lit "question") members && has_member (lit "answer") members
  | _ => false
  end.

Definition structure_prompt (text_input : ustr) : ustr :=
  List.concat
    [ nl;
      indent; HUMAN_PROMPT;
      lit " Here is a block of text containing one or more trivia question-answer pairs. Please parse it and identify each distinct question and its corresponding answer. Structure the output as a JSON list of objects, where each object has a ";
      q; lit "question"; q; lit " key and an "; q; lit "answer"; q;
      lit " key. Handle various delimiters (newlines, specific markers like Q:, A:, Answer:, etc.) intelligently.";
      nl;
      nl;
      indent; lit "Input Text:"; nl;
      indent; lit "```"; nl;
      indent; text_input; nl;
      indent; lit "```"; nl;
      nl;
      indent; lit "Output the JSON list directly, without any introductory text. Example format:"; nl;
      indent; lit "["; nl;
      indent; lit "  {"; q; lit "question"; q; lit ": "; q; lit "Question text 1?"; q;
      lit ", "; q; lit "answer"; q; lit ": "; q; lit "Answer 1"; q; lit "},"; nl;
      indent; lit "  {"; q; lit "question"; q; lit ": "; q; lit "Question text 2?"; q;
      lit ", "; q; lit "answer"; q; lit ": "; q; lit "Answer 2"; q; lit "}"; nl;
      indent; lit "]"; nl;
      indent; AI_PROMPT; nl;
      indent ].

Section LlmUtils.

(** [json.loads]; a malformed text raises [JSONDecodeError]. *)
Variable json_loads : ustr -> exn + json.

(** The result is [Some pairs] for a list of pairs (possibly empty) and
    [None] for the failure signal. *)
Definition structure_qa_pairs (_client : Client) (text_input : ustr)
    : M unit (option (list json)) :=
  if negb (nonempty (strip text_input)) then ret (Some [])
  else
    let prompt := structure_prompt text_input in
    try_except
      (response <- messages_create _client haiku 2048 prompt ;;
       text <- content0_text response ;;
       match re_search_json_list text with
       | Some json_string =>
           try_except
             (structured_data <- lift_result (json_loads json_string) ;;
              match structured_data with
              | JArray items =>
                  if forallb is_qa_object items then ret (Some items)
                  else
                    st_warning (lit "LLM response JSON was not a list of {question, answer} objects.") ;;;
                    ret None
              | _ =>
                  st_warning (lit "LLM response JSON was not a list of {question, answer} objects.") ;;;
                  ret None
              end)
             (fun e =>
                if is_json_decode_error e then
                  Some (st_error (lit "Failed to parse JSON from Claude's response: "
                                    ++ exn_str e ++ nl ++ lit "Response: " ++ text) ;;;
                        ret None)
                else None)
       | None =>
           st_error (lit "Could not extract JSON list from Claude's response:"
                       ++ nl ++ text) ;;;
           ret None
       end)
      (fun e =>
         if is_api_error e then
           Some (st_error (lit "Anthropic API error during structuring: " ++ exn_str e) ;;;
                 ret None)
         else
           Some (st_error (lit "An unexpected error occurred during structuring: "
                             ++ exn_str e) ;;;
                 ret None)).

End LlmUtils.

(** The options shown to the model: [options[:15]], one per line. *)
Definition option_lines (options : list ustr) : ustr :=
  join nl (map (fun o => lit "- " ++ o) (firstn 15 options)).

Definition disambiguation_prompt
    (entity_name : ustr) (options : list ustr) (question answer : ustr) : ustr :=
  List.concat
    [ nl;
      indent; HUMAN_PROMPT;
      lit " We encountered multiple possible Wikipedia pages for the entity ";
      q; entity_name; q; lit "."; nl;
      indent; lit "Trivia Question: "; question; nl;
      indent; lit "Answer: "; answer; nl;
      indent; lit "Possible Wikipedia pages:"; nl;
      indent; option_lines options; lit " # Limit options sent"; nl;
      nl;
      indent; lit "Please choose the single option that best matches the context of the question and answer. If none are clearly relevant, respond with ";
      q; lit "NONE"; q; lit "."; nl;
      indent; lit "Respond ONLY with the exact page title (case sensitive) or ";
      q; lit "NONE"; q; lit "."; nl;
      indent; AI_PROMPT; nl;
      indent ].

(** [title in options] *)
Definition in_options (title : ustr) (options : list ustr) : bool :=
  existsb (ustr_eqb title) options.

(** The text of the response as the resolver reads it:
    [.strip()] and then the quotes stripped. *)
Definition clean_title (text : ustr) : ustr := strip_quotes (strip text).

Definition resolve_disambiguation
    (client : option Client) (entity_name : ustr) (options : list ustr)
    (question answer : ustr) : M unit (option ustr) :=
  match client, options with
  | None, _ => ret None
  | _, [] => ret None
  | Some client, _ :: _ =>
      let prompt := disambiguation_prompt entity_name options question answer in
      try_except
        (resp <- messages_create client haiku 50 prompt ;;
         text <- content0_text resp ;;
         let title := clean_title text in
         if nonempty title && negb (ustr_eqb title (lit "NONE"))
            && in_options title options
         then ret (Some title)
         else ret None)
        (fun e =>
           if is_api_error e then
             Some (st_warning (lit "Anthropic API error during disambiguation: "
                                 ++ exn_str e) ;;;
                   ret None)
           else
             Some (st_warning (lit "An unexpected error occurred during disambiguation: "
                                 ++ exn_str e) ;;;
                   ret None))
  end.

(* ===================================================================== *)
(** ** utils/wiki_utils.py *)
(* ===================================================================== *)

(** A [WikipediaPage] object.  Its attributes are fetched lazily, so
    reading one may raise; [title] is a plain attribute. *)
Record WikipediaPage := {
  page_exists : exn + bool;          (* page.exists() *)
  page_categories : exn + list ustr; (* titles of page.categories.values() *)
  page_links : exn + list ustr;      (* titles of page.links.values() *)
  page_title : ustr;                 (* page.title *)
  page_text : exn + ustr;            (* page.text *)
  page_fullurl : exn + ustr          (* page.fullurl *)
}.

(** The services behind the resolver.
    - [wiki_page tr title] is [_wiki_api.page(title)];
    - [date_window tr days] is [datetime.now()] as [end_date] and
      [end_date - timedelta(days=days)] as [start_date], both rendered
      with [strftime]; the subtraction raises [OverflowError] when it
      leaves the range of dates;
    - [per_article tr title start end] is [pageviewapi.per_article]
      together with the reading of its answer: the [views] of the items,
      or the exception that the request or a malformed answer raises. *)
Record World := {
  wiki_page : trace -> ustr -> WikipediaPage;
  date_window : trace -> Z -> exn + (ustr * ustr);
  per_article : trace -> ustr -> ustr -> ustr -> exn + list Z
}.

(** The [page_info] dictionary. *)
Record PageInfo := {
  title : ustr;
  length : option Z;
  views : option Z;
  url : option ustr;
  found : bool;
  error : option ustr
}.

Definition set_title (v : ustr) (p : PageInfo) : PageInfo :=
  {| title := v; length := length p; views := views p; url := url p;
     found := found p; error := error p |}.
Definition set_length (v : option Z) (p : PageInfo) : PageInfo :=
  {| title := title p; length := v; views := views p; url := url p;
     found := found p; error := error p |}.
Definition set_views (v : option Z) (p : PageInfo) : PageInfo :=
  {| title := title p; length := length p; views := v; url := url p;
     found := found p; error := error p |}.
Definition set_url (v : option ustr) (p : PageInfo) : PageInfo :=
  {| title := title p; length := length p; views := views p; url := v;
     found := found p; error := error p |}.
Definition set_found (v : bool) (p : PageInfo) : PageInfo :=
  {| title := title p; length := length p; views := views p; url := url p;
     found := v; error := error p |}.
Definition set_error (v : option ustr) (p : PageInfo) : PageInfo :=
  {| title := title p; length := length p; views := views p; url := url p;
     found := found p; error := v |}.

(** [x or y] on an optional string and a string. *)
Definition or_else (x : option ustr) (y : ustr) : ustr :=
  match x with
  | Some m => if nonempty m then m else y
  | None => y
  end.

Definition disambiguation_category : ustr :=
  lit "Category:All disambiguation pages".

(** [any(cat.title == "Category:All disambiguation pages" for cat in ...)] *)
Definition is_disambiguation_page (categories : list ustr) : bool :=
  existsb (fun cat => ustr_eqb cat disambiguation_category) categories.

(** [not options] *)
Definition no_options (options : list ustr) : bool :=
  match options with [] => true | _ :: _ => false end.

Definition sum_views (items : list Z) : Z := fold_left Z.add items 0%Z.

Section WikiUtils.

Variable capitalize : ustr -> ustr.
Variable world : World.

Section Resolver.

Variable client : option Client.
Variables entity_name question answer : ustr.
Variable days : Z.

(** The helper answers with an [int], or with a [str] that describes
    the failure. *)
Definition _fetch_page_views (page_title : ustr) (days_to_fetch : Z)
    : M PageInfo (Z + ustr) :=
  window <- ask (EvNow days_to_fetch)
                (fun tr => date_window world tr days_to_fetch) ;;
  try_except
    (views_data <- ask (EvPerArticle page_title (fst window) (snd window))
                       (fun tr => per_article world tr page_title
                                    (fst window) (snd window)) ;;
     ret (inl (sum_views views_data)))
    (fun pv_err =>
       if is_zero_views pv_err then Some (ret (inl 0%Z))
       else Some (ret (inr (lit "Pageview fetch error: " ++ exn_str pv_err)))).

Definition _populate_from_page (page : WikipediaPage) : M PageInfo unit :=
  modify (set_found true) ;;;
  modify (set_title (page_title page)) ;;;
  text <- lift_result (page_text page) ;;
  modify (set_length (Some (Z.of_nat (List.length text)))) ;;;
  fullurl <- lift_result (page_fullurl page) ;;
  modify (set_url (Some fullurl)) ;;;
  views_result <- _fetch_page_views (page_title page) days ;;
  match views_result with
  | inl n => modify (set_views (Some n))
  | inr msg =>
      modify (set_views None) ;;;
      modify (fun p => set_error (Some (or_else (error p) msg)) p)
  end.

Definition api_page (title : ustr) : M PageInfo WikipediaPage :=
  fun s => (emit (EvPage title) ;;; ret (wiki_page world (fst s) title)) s.

Definition entity_name_title_case : ustr :=
  to_title_case capitalize entity_name.

(** The body of the [if selected_title:] block; the result tells
    whether the function has returned ([true]) or control falls
    through to the statements after the block ([false]). *)
Definition fetch_selected (selected_title : option ustr) : M PageInfo bool :=
  match selected_title with
  | Some selected =>
      if nonempty selected then
        try_except
          (resolved_page <- api_page selected ;;
           ex <- lift_result (page_exists resolved_page) ;;
           if ex : bool then
             cats <- lift_result (page_categories resolved_page) ;;
             if negb (is_disambiguation_page cats) then
               _populate_from_page resolved_page ;;;
               ret true
             else ret false
           else ret false)
          (fun resolve_err =>
             Some (modify (set_error
                             (Some (lit "Error fetching resolved page '"
                                      ++ selected ++ lit "': "
                                      ++ exn_str resolve_err))) ;;;
                   ret true))
      else ret false
  | None => ret false
  end.

(** The statements of the outer [try]. *)
Definition resolve_body : M PageInfo unit :=
  page <- api_page entity_name_title_case ;;
  ex <- lift_result (page_exists page) ;;
  if ex : bool then
    cats <- lift_result (page_categories page) ;;
    if is_disambiguation_page cats then
      links <- lift_result (page_links page) ;;
      let options :=
        if no_options links
        then [entity_name_title_case ++ lit " (disambiguation)"]
        else links in
      selected_title <-
        lift_io (resolve_disambiguation client entity_name_title_case
                                        options question answer) ;;
      returned <- fetch_selected selected_title ;;
      if returned : bool then ret tt
      else
        modify (set_error
                  (Some (lit "Disambiguation: " ++ entity_name_title_case
                           ++ lit ". Options: "
                           ++ join (lit ", ") (firstn 5 options)
                           ++ lit "...")))
    else _populate_from_page page
  else modify (set_error (Some (lit "Page not found on Wikipedia."))).

Definition initial_page_info : PageInfo :=
  {| title := entity_name_title_case; length := None; views := None;
     url := None; found := false; error := None |}.

(** The outer [except Exception as gen_err]. *)
Definition on_unexpected (gen_err : exn) : M PageInfo unit :=
  st_error (lit "Unexpected error fetching Wikipedia data for '"
              ++ entity_name_title_case ++ lit "': " ++ exn_str gen_err) ;;;
  modify (set_error (Some (lit "Unexpected error: " ++ exn_str gen_err))).

(** Every [return] of the function gives back the [page_info] object,
    so the result of a run is the state of that object at its end. *)
Definition get_wikipedia_data (tr : trace) : (exn + PageInfo) * trace :=
  match try_except resolve_body (fun gen_err => Some (on_unexpected gen_err))
                   (tr, initial_page_info) with
  | (inr _, (tr', page_info)) => (inr page_info, tr')
  | (inl e, (tr', _)) => (inl e, tr')
  end.

End Resolver.
End WikiUtils.

(* ===================================================================== *)
(** ** Vocabulary of the properties and sample data *)
(* ===================================================================== *)

(** A string on which [dropwhile p] has nothing to do. *)
Definition settled (p : N -> bool) (s : ustr) : Prop :=
  match s with [] => True | c :: _ => p c = false end.

(** The shape of every value of [normalize_text]: ASCII, lower case. *)
Definition folded (c : N) : Prop :=
  is_ascii c = true /\ ascii_lower_char c = c.

Definition all_ascii (s : ustr) : Prop := Forall (fun c => is_ascii c = true) s.

Definition no_ascii (s : ustr) : Prop := Forall (fun c => is_ascii c = false) s.

(** The word of the specification's example, with U+00C5 and U+00F6. *)
Definition Angstrom_accented : ustr := [197] ++ lit "ngstr" ++ [246] ++ lit "m".

(** Its canonical decomposition: the two letters lose a ring above
    (U+030A) and a diaeresis (U+0308). *)
Definition Angstrom_decomposed : ustr :=
  lit "A" ++ [778] ++ lit "ngstro" ++ [776] ++ lit "m".

(** A client that must not be called: it raises on every request. *)
Definition unreachable_client : Client :=
  fun _ _ _ _ => inl (Exn APIError (lit "unreachable")).

(** What the resolver makes of the outcome of its one request. *)
Definition chosen_title (options : list ustr) (outcome : exn + list ustr)
    : option ustr :=
  match outcome with
  | inr (text :: _) =>
      let title := clean_title text in
      if nonempty title && negb (ustr_eqb title (lit "NONE"))
         && in_options title options
      then Some title else None
  | _ => None
  end.

(** Sixteen candidates and a client that answers with the last of them,
    in quotes and with spaces around: the answer is accepted although
    the prompt showed only the first fifteen. *)
Definition sixteen_options : list ustr :=
  map (fun n => lit "Page " ++ [n]) [65; 66; 67; 68; 69; 70; 71; 72; 73; 74; 75; 76; 77; 78; 79; 80].

(** A string with a character that is not whitespace. *)
Definition has_nonspace (s : ustr) : bool :=
  existsb (fun c => negb (py_isspace c)) s.

(** A word as [split()] produces them. *)
Definition is_word (w : ustr) : Prop :=
  w <> [] /\ Forall (fun c => py_isspace c = false) w.

(** What the title-casing needs of [str.capitalize]: a word keeps a
    character that is not whitespace. *)
Definition keeps_words (capitalize : ustr -> ustr) : Prop :=
  forall w, is_word w -> has_nonspace (capitalize w) = true.

(** [str.capitalize] on ASCII text: the first character in upper case,
    the others in lower case. *)
Definition ascii_upper_char (c : N) : N :=
  if (97 <=? c) && (c <=? 122) then c - 32 else c.

Definition capitalize_ascii (w : ustr) : ustr :=
  match w with
  | [] => []
  | c :: w' => ascii_upper_char c :: ascii_lower w'
  end.

(** The page lookups of a stretch of trace, each with the trace that
    preceded it. *)
Fixpoint page_lookups (before : trace) (tr : trace) : list (trace * ustr) :=
  match tr with
  | [] => []
  | EvPage t :: tr' => (before, t) :: page_lookups (before ++ [EvPage t]) tr'
  | ev :: tr' => page_lookups (before ++ [ev]) tr'
  end.

(** The number of requests to the language model in a stretch of trace. *)
Fixpoint llm_requests (tr : trace) : nat :=
  match tr with
  | [] => 0%nat
  | EvMessagesCreate _ _ _ :: tr' => S (llm_requests tr')
  | _ :: tr' => llm_requests tr'
  end.

(** A small encyclopedia: Mercury is a disambiguation page with three
    links, of which one is an article, one is again a disambiguation
    page and one does not exist; page views are served for the article
    Paris only. *)
Definition article (t : ustr) (cats links : list ustr) : WikipediaPage :=
  {| page_exists := inr true; page_categories := inr cats;
     page_links := inr links; page_title := t;
     page_text := inr (lit "Lorem ipsum");
     page_fullurl := inr (lit "https://en.wikipedia.org/wiki/" ++ t) |}.

Definition missing_page (t : ustr) : WikipediaPage :=
  {| page_exists := inr false; page_categories := inr [];
     page_links := inr []; page_title := t;
     page_text := inr []; page_fullurl := inr [] |}.

Definition sample_world : World :=
  {| wiki_page := fun _ t =>
       if ustr_eqb t (lit "Mercury") then
         article t [disambiguation_category]
           [lit "Mercury (planet)"; lit "Mercury (element)"; lit "Mercury (myth)"]
       else if ustr_eqb t (lit "Mercury (planet)") then article t [lit "Category:Planets"] []
       else if ustr_eqb t (lit "Mercury (element)") then article t [disambiguation_category] []
       else if ustr_eqb t (lit "Paris") then article t [lit "Category:Capitals"] []
       else missing_page t;
     date_window := fun _ _ => inr (lit "20250101", lit "20260101");
     per_article := fun _ t _ _ =>
       if ustr_eqb t (lit "Paris") then inr [120; 80; 100]%Z
       else inl (Exn OtherError (lit "503 Service Unavailable")) |}.

Definition answering (text : ustr) : Client := fun _ _ _ _ => inr [text].

(* ===================================================================== *)
(** ** utils/llm_utils.py: the key-entity identifier *)
(* ===================================================================== *)

Definition sonnet : ustr := lit "claude-3-7-sonnet-20250219".

Definition main_topic_prompt (question answer : ustr) : ustr :=
  List.concat
    [ nl;
      indent; HUMAN_PROMPT;
      lit " Consider the following trivia question and its answer:"; nl;
      indent; lit "Question: "; q; question; q; nl;
      indent; lit "Answer: "; q; answer; q; nl;
      indent; lit "Your task is to analyze question-answer pairs and identify the implicit ";
      q; lit "key entity"; q;
      lit " that connects them. The key entity is critical knowledge required to answer the question correctly, but is not explicitly stated in the question itself. Respond with ONLY the name of the most specific subject/topic. If the answer itself is the clear topic, just repeat the answer, but think carefully before answering.";
      nl;
      nl;
      indent; lit "Examples:"; nl;
      nl;
      indent; lit "Question: The body of which US President, who died in 1885, lies in Riverside Park in Manhattan, in the largest mausoleum in North America?"; nl;
      indent; lit "Answer: Ulysses S Grant"; nl;
      indent; lit "Key Entity: Grant's Tomb"; nl;
      nl;
      indent; lit "Question: What name precedes "; q; lit "en-Y"; q;
      lit " in the surgical procedure often used as part of a gastric bypass?"; nl;
      indent; lit "Answer: Roux"; nl;
      indent; lit "Key Entity: Roux-en-Y"; nl;
      nl;
      indent; lit "Question: What King was victorious at a battle fought on Saint Crispin's Day in 1415?"; nl;
      indent; lit "Answer: Henry V"; nl;
      indent; lit "Key Entity: Battle of Agincourt"; nl;
      nl;
      indent; lit "Question: A term from what game titles the 2024 Sally Rooney novel about Ivan and Paul Koubek?"; nl;
      indent; lit "Answer: Chess"; nl;
      indent; lit "Key Entity: Intermezzo (novel)"; nl;
      nl;
      indent; lit "Question: Who invented the martial art whose name translates as 'the way of the intercepting fist'?"; nl;
      indent; lit "Answer: Bruce Lee"; nl;
      indent; lit "Key Entity: Jeet Kune Do"; nl;
      nl;
      indent; lit "For the following question-answer pair, identify the implicit key entity:"; nl;
      indent; lit "Question: "; question; nl;
      indent; lit "Answer:"; answer; nl;
      nl;
      indent; AI_PROMPT; nl;
      indent ].

Definition identify_main_topic (_client : Client) (question answer : ustr)
    : M unit (option ustr) :=
  let prompt := main_topic_prompt question answer in
  try_except
    (response <- messages_create _client sonnet 50 prompt ;;
     text <- content0_text response ;;
     let topic := strip text in
     let topic := strip_quotes topic in
     ret (if nonempty topic then Some topic else None))
    (fun e =>
       if is_api_error e then
         Some (st_warning (lit "Anthropic API error identifying topic: " ++ exn_str e) ;;;
               ret None)
       else
         Some (st_warning (lit "An unexpected error occurred during topic identification: "
                             ++ exn_str e) ;;;
               ret None)).

(* ===================================================================== *)
(** ** utils/config.py and utils/nlp_utils.py *)
(* ===================================================================== *)

Definition DEFAULT_VIEWS_DAYS : Z := 365.

Definition ENTITY_TYPES_TO_KEEP : list ustr :=
  map lit ["PERSON"; "ORG"; "LOC"; "GPE"; "FAC"; "PRODUCT"; "EVENT";
           "WORK_OF_ART"; "NORP"; "LAW"]%string.

(** A Python [set] of [str], as the list of its elements without
    repetition; [entities.add(x)]. *)
Definition set_add (x : ustr) (s : list ustr) : list ustr :=
  if in_words x s then s else s ++ [x].

(** One iteration of the loop over [doc.ents]; a span is its [text] and
    its [label_]. *)
Definition add_span (entities : list ustr) (ent : ustr * ustr) : list ustr :=
  if in_words (snd ent) ENTITY_TYPES_TO_KEEP then
    let cleaned_entity := strip (fst ent) in
    if nonempty cleaned_entity then set_add cleaned_entity entities
    else entities
  else entities.

(** [_nlp text] gives the spans of [doc.ents]; [list_of_set s] is
    [list(s)], whose order Python leaves open. *)
Definition extract_entities
    (_nlp : ustr -> list (ustr * ustr)) (list_of_set : list ustr -> list ustr)
    (text : ustr) : list ustr :=
  if negb (nonempty text) then []
  else
    let doc_ents := _nlp text in
    let entities := fold_left add_span doc_ents [] in
    list_of_set entities.

(* ===================================================================== *)
(** ** app.py: one question-answer pair *)
(* ===================================================================== *)

(** Lines 85 to 87: the literal answer joins the entities of the answer
    unless an entity with the same normalized form is there already. *)
Definition include_literal_answer
    (nfkd : ustr -> ustr) (answer : ustr) (answer_entities : list ustr)
    : list ustr :=
  if nonempty answer && negb (in_list_case_insensitive nfkd answer answer_entities)
  then answer_entities ++ [answer]
  else answer_entities.

(** Lines 85 to 104: from a pair and the key entity to the entities that
    are looked up. *)
Definition entities_of_pair
    (nfkd str_lower : ustr -> ustr)
    (_nlp : ustr -> list (ustr * ustr)) (list_of_set : list ustr -> list ustr)
    (include_q_entities : bool) (question answer : ustr)
    (main_topic : option ustr) : list ustr :=
  let answer_entities :=
    include_literal_answer nfkd answer (extract_entities _nlp list_of_set answer) in
  let question_entities :=
    if include_q_entities then extract_entities _nlp list_of_set question else [] in
  unique_entities_to_fetch nfkd str_lower answer_entities question_entities main_topic.

(** Lines 112 to 117: the loop that resolves the entities one after the
    other; the result is [entity_data_list]. *)
Fixpoint entity_data_list
    (capitalize : ustr -> ustr) (world : World) (client : option Client)
    (question answer : ustr) (entities : list ustr) (tr : trace)
    : (exn + list PageInfo) * trace :=
  match entities with
  | [] => (inr [], tr)
  | entity :: rest =>
      match get_wikipedia_data capitalize world client entity question answer
                               DEFAULT_VIEWS_DAYS tr with
      | (inl e, tr') => (inl e, tr')
      | (inr wiki_data, tr') =>
          match entity_data_list capitalize world client question answer rest tr' with
          | (inl e, tr'') => (inl e, tr'')
          | (inr data, tr'') => (inr (wiki_data :: data), tr'')
          end
      end
  end.

(** Lines 94 to 117 for one pair: the key entity, the merge and the
    lookups.  The entity extractor is taken not to raise. *)
Definition analyse_pair
    (nfkd str_lower capitalize : ustr -> ustr)
    (_nlp : ustr -> list (ustr * ustr)) (list_of_set : list ustr -> list ustr)
    (world : World) (client : Client)
    (include_q_entities : bool) (question answer : ustr) (tr : trace)
    : (exn + list PageInfo) * trace :=
  match identify_main_topic client question answer (tr, tt) with
  | (inl e, (tr', _)) => (inl e, tr')
  | (inr main_topic, (tr', _)) =>
      entity_data_list capitalize world (Some client) question answer
        (entities_of_pair nfkd str_lower _nlp list_of_set include_q_entities
                          question answer main_topic)
        tr'
  end.

(** Lines 124 to 130: the status shown for a result; the marks are
    U+2713 and U+2717. *)
Definition status_of (data : PageInfo) : ustr :=
  if found data then [10003] ++ lit " Found"
  else
    match error data with
    | Some m => if nonempty m then [10007] ++ lit " " ++ m
                else [10007] ++ lit " Not Found"
    | None => [10007] ++ lit " Not Found"
    end.

(* ===================================================================== *)
(** ** Vocabulary of the further properties *)
(* ===================================================================== *)

(** The words of a title-cased text. *)
Definition title_words (capitalize : ustr -> ustr) (text : ustr) : list ustr :=
  lower_special (map capitalize (split_ws text)).

(** The entries of the merged dictionary: each spelling is stored under
    its own normalized form and is not empty. *)
Definition own_key (nfkd : ustr -> ustr) (kv : ustr * ustr) : Prop :=
  fst kv = normalize_text nfkd (snd kv) /\ nonempty (snd kv) = true.

(** The order of [sorted(..., key=key)]. *)
Definition key_le (key : ustr -> ustr) (x y : ustr) : Prop :=
  ustr_leb (key x) (key y) = true.

(** A span that the extractor keeps: its label is in the allow-list and
    its text is not blank. *)
Definition kept_span (ent : ustr * ustr) (e : ustr) : Prop :=
  In (snd ent) ENTITY_TYPES_TO_KEEP /\ e = strip (fst ent) /\ e <> [].

(** The last event of a stretch of trace. *)
Definition last_event (tr : trace) : option event :=
  List.last (map Some tr) None.

(** An event that tells the user of a failure: [st.error] or
    [st.warning]. *)
Definition is_report (ev : option event) : Prop :=
  exists msg, ev = Some (EvStError msg) \/ ev = Some (EvStWarning msg).

(** What the loop of lookups keeps for each entity. *)
Definition result_for (capitalize : ustr -> ustr) (entity : ustr) (r : PageInfo)
    : Prop :=
  (found r = false ->
     title r = to_title_case capitalize entity
     /\ exists m, error r = Some m /\ m <> [])
  /\ (error r = None -> found r = true).

(** The candidates that the resolver is given for a disambiguation page:
    the links of the page, or the one made-up title when there are
    none. *)
Definition options_of (t0 : ustr) (links : list ustr) : list ustr :=
  if no_options links then [t0 ++ lit " (disambiguation)"] else links.

(** The two ways in which a resolution under the title [t0] comes to
    read an article [page], with [before] the trace once that page has
    been looked up: the page under [t0] is itself an article; or it is a
    disambiguation page, the disambiguation resolver chooses a
    candidate, and the page of the candidate is an article. *)
Definition lands_on_article
    (world : World) (client : option Client) (t0 question answer : ustr)
    (tr : trace) (page : WikipediaPage) (before : trace) : Prop :=
  (page = wiki_page world tr t0
   /\ before = tr ++ [EvPage t0]
   /\ page_exists page = inr true
   /\ exists cats,
        page_categories page = inr cats
        /\ is_disambiguation_page cats = false)
  \/ (exists cats links selected tr2 cats2,
        page_exists (wiki_page world tr t0) = inr true
        /\ page_categories (wiki_page world tr t0) = inr cats
        /\ is_disambiguation_page cats = true
        /\ page_links (wiki_page world tr t0) = inr links
        /\ resolve_disambiguation client t0 (options_of t0 links) question answer
             (tr ++ [EvPage t0], tt)
           = (inr (Some selected), (tr2, tt))
        /\ page = wiki_page world tr2 selected
        /\ before = tr2 ++ [EvPage selected]
        /\ page_exists page = inr true
        /\ page_categories page = inr cats2
        /\ is_disambiguation_page cats2 = false).

(* ===================================================================== *)
(** * Properties *)
(* ===================================================================== *)

(** ** Strings *)

Lemma ustr_eqb_eq (a b : ustr) : ustr_eqb a b = true <-> a = b.
Proof.
  revert b; induction a as [|x a IH]; intros [|y b]; simpl; split;
    try congruence; try discriminate.
  - rewrite andb_true_iff, N.eqb_eq, IH. intros [-> ->]. reflexivity.
  - intros H; injection H as -> ->.
    rewrite N.eqb_refl. simpl. apply IH. reflexivity.
Qed.

Lemma ustr_eqb_refl (a : ustr) : ustr_eqb a a = true.
Proof. apply ustr_eqb_eq. reflexivity. Qed.

Lemma ustr_eqb_neq (a b : ustr) : ustr_eqb a b = false <-> a <> b.
Proof.
  split.
  - intros H E. apply ustr_eqb_eq in E. congruence.
  - intros H. destruct (ustr_eqb a b) eqn:E; [|reflexivity].
    apply ustr_eqb_eq in E. contradiction.
Qed.

Lemma existsb_ustr_eqb_In (t : ustr) (l : list ustr) :
  existsb (ustr_eqb t) l = true <-> In t l.
Proof.
  rewrite existsb_exists. split.
  - intros (x & Hx & E). apply ustr_eqb_eq in E. subst. assumption.
  - intros H. exists t. split; [assumption | apply ustr_eqb_refl].
Qed.

Section Strip.

Variable p : N -> bool.

Lemma dropwhile_settled s : settled p (dropwhile p s).
Proof.
  induction s as [|c s IH]; simpl; [exact I|].
  destruct (p c) eqn:E; [assumption | simpl; assumption].
Qed.

Lemma dropwhile_fix s : settled p s -> dropwhile p s = s.
Proof. destruct s as [|c s]; simpl; [reflexivity | intros ->; reflexivity]. Qed.

Lemma dropwhile_suffix s : exists pre, s = pre ++ dropwhile p s.
Proof.
  induction s as [|c s [pre IH]]; simpl.
  - exists []. reflexivity.
  - destruct (p c).
    + exists (c :: pre). simpl. congruence.
    + exists []. reflexivity.
Qed.

Lemma dropwhile_all s : Forall (fun c => p c = true) s -> dropwhile p s = [].
Proof. induction 1 as [|c s Hc _ IH]; simpl; [|rewrite Hc]; auto. Qed.

Lemma dropwhile_Forall (P : N -> Prop) s : Forall P s -> Forall P (dropwhile p s).
Proof.
  induction 1 as [|c s Hc Hs IH]; simpl; [constructor|].
  destruct (p c); [assumption | constructor; assumption].
Qed.

Lemma strip_by_Forall (P : N -> Prop) s : Forall P s -> Forall P (strip_by p s).
Proof.
  intros H. unfold strip_by, rstrip_by, lstrip_by.
  apply Forall_rev, dropwhile_Forall, Forall_rev, dropwhile_Forall, H.
Qed.

Lemma strip_by_all s : Forall (fun c => p c = true) s -> strip_by p s = [].
Proof.
  intros H. unfold strip_by, rstrip_by, lstrip_by.
  rewrite (dropwhile_all H). reflexivity.
Qed.

(** The first character of a stripped string is kept by [p]. *)
Lemma rstrip_settled s : settled p s -> settled p (rstrip_by p s).
Proof.
  intros H. unfold rstrip_by.
  destruct (dropwhile_suffix (rev s)) as [pre E].
  apply (f_equal (@rev N)) in E. rewrite rev_involutive, rev_app_distr in E.
  destruct (rev (dropwhile p (rev s))) as [|c t]; [exact I|].
  rewrite E in H. simpl in *. assumption.
Qed.

Lemma strip_by_idempotent s : strip_by p (strip_by p s) = strip_by p s.
Proof.
  unfold strip_by at 1. unfold lstrip_by.
  rewrite dropwhile_fix.
  - unfold rstrip_by, strip_by, rstrip_by.
    rewrite rev_involutive.
    rewrite (dropwhile_fix _ (dropwhile_settled _)). reflexivity.
  - unfold strip_by. apply rstrip_settled, dropwhile_settled.
Qed.

End Strip.

Lemma filter_fix (f : N -> bool) s :
  Forall (fun c => f c = true) s -> filter f s = s.
Proof. induction 1 as [|c s Hc _ IH]; simpl; [|rewrite Hc, IH]; reflexivity. Qed.

Lemma filter_Forall (f : N -> bool) s : Forall (fun c => f c = true) (filter f s).
Proof.
  induction s as [|c s IH]; simpl; [constructor|].
  destruct (f c) eqn:E; [constructor|]; assumption.
Qed.

Lemma filter_none (f : N -> bool) s :
  Forall (fun c => f c = false) s -> filter f s = [].
Proof. induction 1 as [|c s Hc _ IH]; simpl; [|rewrite Hc]; auto. Qed.

Lemma map_fix (f : N -> N) s : Forall (fun c => f c = c) s -> map f s = s.
Proof. induction 1 as [|c s Hc _ IH]; simpl; [|rewrite Hc, IH]; reflexivity. Qed.

Lemma ascii_lower_char_idempotent c :
  ascii_lower_char (ascii_lower_char c) = ascii_lower_char c.
Proof.
  unfold ascii_lower_char.
  destruct ((65 <=? c) && (c <=? 90)) eqn:E; [|rewrite E; reflexivity].
  apply andb_true_iff in E. destruct E as [E1 E2].
  apply N.leb_le in E1, E2.
  replace (c + 32 <=? 90) with false by (symmetry; apply N.leb_gt; lia).
  rewrite andb_false_r. reflexivity.
Qed.

Lemma ascii_lower_char_ascii c :
  is_ascii c = true -> is_ascii (ascii_lower_char c) = true.
Proof.
  unfold is_ascii, ascii_lower_char. intros H. apply N.ltb_lt in H.
  destruct ((65 <=? c) && (c <=? 90)) eqn:E; apply N.ltb_lt; [|assumption].
  apply andb_true_iff in E. destruct E as [_ E]. apply N.leb_le in E. lia.
Qed.

Lemma ascii_lower_folded s :
  Forall (fun c => is_ascii c = true) s -> Forall folded (ascii_lower s).
Proof.
  unfold ascii_lower. induction 1 as [|c s Hc _ IH]; simpl; constructor; auto.
  split; [apply ascii_lower_char_ascii, Hc | apply ascii_lower_char_idempotent].
Qed.

(** ** The normalizer *)

Lemma latin1_mark_ascii c : is_ascii c = true -> latin1_mark c = None.
Proof.
  unfold is_ascii, latin1_mark. intros H. apply N.ltb_lt in H.
  replace (192 <=? c) with false by (symmetry; apply N.leb_gt; lia).
  replace (224 <=? c) with false by (symmetry; apply N.leb_gt; lia).
  replace (c =? 255) with false by (symmetry; apply N.eqb_neq; lia).
  reflexivity.
Qed.

(** The fragment leaves ASCII text alone, as NFKD does. *)
Lemma nfkd_latin1_ascii s : all_ascii s -> nfkd_latin1 s = s.
Proof.
  unfold nfkd_latin1. induction 1 as [|c s Hc _ IH]; simpl; [reflexivity|].
  rewrite (latin1_mark_ascii _ Hc), IH. reflexivity.
Qed.

Section NormalizeProps.

Variable nfkd : ustr -> ustr.

(** No ASCII character has a decomposition. *)
Hypothesis nfkd_ascii : forall s, all_ascii s -> nfkd s = s.

Lemma normalize_text_folded txt : Forall folded (normalize_text nfkd txt).
Proof.
  unfold normalize_text. destruct (negb (nonempty txt)); [constructor|].
  apply strip_by_Forall, ascii_lower_folded, filter_Forall.
Qed.

Lemma normalize_text_fix r :
  Forall folded r -> strip r = r -> normalize_text nfkd r = r.
Proof.
  intros Hf Hs. unfold normalize_text.
  destruct r as [|c r]; [reflexivity|]. cbn [nonempty negb].
  assert (Ha : all_ascii (c :: r)).
  { eapply Forall_impl; [|exact Hf]. intros x [Hx _]. exact Hx. }
  rewrite (nfkd_ascii Ha). unfold encode_ascii_ignore.
  rewrite (filter_fix _ Ha). unfold ascii_lower.
  rewrite map_fix; [exact Hs|].
  eapply Forall_impl; [|exact Hf]. intros x [_ Hx]. exact Hx.
Qed.

Lemma normalize_text_idempotent txt :
  normalize_text nfkd (normalize_text nfkd txt) = normalize_text nfkd txt.
Proof.
  apply normalize_text_fix; [apply normalize_text_folded|].
  unfold normalize_text. destruct (negb (nonempty txt)); [reflexivity|].
  apply strip_by_idempotent.
Qed.

Lemma normalize_text_ascii s :
  all_ascii s ->
  normalize_text nfkd s
  = if negb (nonempty s) then [] else strip (ascii_lower s).
Proof.
  intros Hs. unfold normalize_text. destruct (negb (nonempty s)); [reflexivity|].
  rewrite (nfkd_ascii Hs). unfold encode_ascii_ignore.
  rewrite (filter_fix _ Hs). reflexivity.
Qed.

End NormalizeProps.

Lemma normalize_text_no_ascii nfkd a :
  no_ascii (nfkd a) -> normalize_text nfkd a = [].
Proof.
  intros H. unfold normalize_text. destruct (negb (nonempty a)); [reflexivity|].
  unfold encode_ascii_ignore. rewrite (filter_none _ H). reflexivity.
Qed.

Lemma latin1_mark_shape c b m :
  latin1_mark c = Some (b, m) -> is_ascii b = true /\ is_ascii m = false.
Proof.
  assert (Hsmall :
            forallb (fun c => match latin1_mark c with
                              | Some (b, m) => is_ascii b && negb (is_ascii m)
                              | None => true
                              end)
                    (map N.of_nat (seq 0 256)) = true)
    by (vm_compute; reflexivity).
  destruct (N.ltb_spec c 256) as [Hc|Hc].
  - pose proof (proj1 (forallb_forall _ _) Hsmall c) as H.
    intros E.
    assert (Hin : In c (map N.of_nat (seq 0 256))).
    { apply in_map_iff. exists (N.to_nat c). split; [apply N2Nat.id|].
      apply in_seq. lia. }
    specialize (H Hin). cbv beta in H. rewrite E in H.
    apply andb_true_iff in H. destruct H as [H1 H2].
    apply negb_true_iff in H2. split; assumption.
  - unfold latin1_mark.
    replace (c <=? 221) with false by (symmetry; apply N.leb_gt; lia).
    replace (c <=? 253) with false by (symmetry; apply N.leb_gt; lia).
    replace (c =? 255) with false by (symmetry; apply N.eqb_neq; lia).
    rewrite !andb_false_r. discriminate.
Qed.

(** Of a decomposed text the ASCII encoding keeps the base letters. *)
Lemma encode_nfkd_latin1 s :
  encode_ascii_ignore (nfkd_latin1 s) = encode_ascii_ignore (unaccent s).
Proof.
  unfold encode_ascii_ignore, nfkd_latin1, unaccent, base_letter.
  induction s as [|c s IH]; [reflexivity|].
  cbn [flat_map map]. rewrite filter_app, IH.
  destruct (latin1_mark c) as [[b m]|] eqn:E;
    [|cbn [filter app]; destruct (is_ascii c); reflexivity].
  destruct (latin1_mark_shape _ E) as [Hb Hm].
  cbn [filter app]. rewrite Hb, Hm. reflexivity.
Qed.

Lemma ascii_lower_char_is_ascii c :
  is_ascii (ascii_lower_char c) = is_ascii c.
Proof.
  unfold ascii_lower_char, is_ascii.
  destruct ((65 <=? c) && (c <=? 90)) eqn:E; [|reflexivity].
  apply andb_true_iff in E. destruct E as [_ E]. apply N.leb_le in E.
  rewrite (proj2 (N.ltb_lt (c + 32) 128)) by lia.
  rewrite (proj2 (N.ltb_lt c 128)) by lia. reflexivity.
Qed.

Lemma ascii_lower_encode s :
  ascii_lower (encode_ascii_ignore s) = encode_ascii_ignore (ascii_lower s).
Proof.
  unfold ascii_lower, encode_ascii_ignore.
  induction s as [|c s IH]; [reflexivity|].
  cbn [map filter]. rewrite ascii_lower_char_is_ascii.
  destruct (is_ascii c); cbn [map]; rewrite IH; reflexivity.
Qed.

Lemma nonempty_of_length (s t : ustr) :
  List.length s = List.length t -> nonempty s = nonempty t.
Proof. destruct s, t; simpl; intros H; try reflexivity; discriminate. Qed.

(** Two spellings with the same letters, accents and case apart. *)
Lemma normalize_text_folds_accents nfkd s t :
  nfkd s = nfkd_latin1 s -> nfkd t = nfkd_latin1 t ->
  ascii_lower (unaccent s) = ascii_lower (unaccent t) ->
  normalize_text nfkd s = normalize_text nfkd t.
Proof.
  intros Hs Ht E. unfold normalize_text.
  assert (Hlen : List.length s = List.length t).
  { apply (f_equal (@List.length N)) in E.
    unfold ascii_lower, unaccent in E. rewrite !length_map in E. exact E. }
  rewrite (nonempty_of_length _ _ Hlen).
  destruct (negb (nonempty t)); [reflexivity|].
  rewrite Hs, Ht, !encode_nfkd_latin1, !ascii_lower_encode, E. reflexivity.
Qed.

(** Two ASCII spellings with the same letters, case apart. *)
Lemma normalize_text_folds_case nfkd s t :
  (forall x, all_ascii x -> nfkd x = x) ->
  all_ascii s -> all_ascii t -> ascii_lower s = ascii_lower t ->
  normalize_text nfkd s = normalize_text nfkd t.
Proof.
  intros Hascii Hs Ht E.
  rewrite (@normalize_text_ascii nfkd Hascii s Hs).
  rewrite (@normalize_text_ascii nfkd Hascii t Ht).
  assert (Hlen : List.length s = List.length t).
  { apply (f_equal (@List.length N)) in E.
    unfold ascii_lower in E. rewrite !length_map in E. exact E. }
  rewrite (nonempty_of_length _ _ Hlen), E. reflexivity.
Qed.



(** Accent and case variants beyond the example of the specification. *)
Example normalize_text_variants :
  let cafe1 := lit "CAF" ++ [201] in      (* CAFE with U+00C9 *)
  let cafe2 := lit "caf" ++ [233] in      (* cafe with U+00E9 *)
  normalize_text nfkd_latin1 cafe1 = lit "cafe"
  /\ normalize_text nfkd_latin1 cafe2 = lit "cafe"
  /\ normalize_text nfkd_latin1 (lit "  Cafe ") = lit "cafe".
Proof. vm_compute. repeat split; reflexivity. Qed.

(** ** The entity merge *)

Lemma dict_get_set d k v k' :
  dict_get (dict_set d k v) k' = if ustr_eqb k k' then Some v else dict_get d k'.
Proof.
  induction d as [|[k0 v0] d IH]; simpl.
  - reflexivity.
  - destruct (ustr_eqb k0 k) eqn:E0; simpl.
    + apply ustr_eqb_eq in E0. subst k0.
      destruct (ustr_eqb k k'); reflexivity.
    + destruct (ustr_eqb k0 k') eqn:E1.
      * apply ustr_eqb_eq in E1. subst k0.
        destruct (ustr_eqb k k') eqn:E2; [|reflexivity].
        apply ustr_eqb_eq in E2. subst k. rewrite ustr_eqb_refl in E0. discriminate.
      * exact IH.
Qed.

Section MergeProps.

Variable nfkd : ustr -> ustr.

Lemma dict_get_merge_entity d entity k :
  dict_get (merge_entity nfkd d entity) k
  = if has_key nfkd k entity then entity else dict_get d k.
Proof.
  destruct entity as [e|]; simpl; [|reflexivity].
  destruct (nonempty e); simpl; [|reflexivity].
  apply dict_get_set.
Qed.

Lemma dict_get_merge_all cands d k :
  dict_get (fold_left (merge_entity nfkd) cands d) k
  = match last_seen nfkd k cands with
    | Some e => Some e
    | None => dict_get d k
    end.
Proof.
  induction cands as [|entity cands IH] using rev_ind.
  - reflexivity.
  - rewrite fold_left_app. simpl. rewrite dict_get_merge_entity.
    unfold last_seen, first_seen. rewrite rev_app_distr. simpl.
    destruct (has_key nfkd k entity) eqn:E.
    + destruct entity as [e|]; [reflexivity | discriminate].
    + exact IH.
Qed.

Lemma combined_entities_fold A Q T :
  combined_entities nfkd A Q T
  = fold_left (merge_entity nfkd) (candidates A Q T) [].
Proof.
  unfold combined_entities, candidates. simpl.
  rewrite !fold_left_app. reflexivity.
Qed.

End MergeProps.

(** C1, as the code has it: for every sequence of candidates and every
    normalized key, the surface form that the merge keeps under the key
    is the last candidate, in the order answer entities, question
    entities, key entity, that is neither absent nor empty and normalizes
    to the key; with no such candidate the key is not in the dictionary. *)
Theorem merge_keeps_last_seen (nfkd : ustr -> ustr)
    (answer_entities question_entities : list ustr) (main_topic : option ustr)
    (k : ustr) :
  dict_get (combined_entities nfkd answer_entities question_entities main_topic) k
  = last_seen nfkd k (candidates answer_entities question_entities main_topic).
Proof.
  rewrite combined_entities_fold, dict_get_merge_all.
  destruct (last_seen _ _ _); reflexivity.
Qed.

(** C1, as the specification states it, fails: with the answer entity
    Paris and the key entity paris, the first-seen spelling is Paris and
    the merge keeps paris. *)
Lemma merge_first_seen_fails :
  let answer_entities := [lit "Paris"] in
  let main_topic := Some (lit "paris") in
  first_seen nfkd_latin1 (lit "paris") (candidates answer_entities [] main_topic)
    = Some (lit "Paris")
  /\ dict_get (combined_entities nfkd_latin1 answer_entities [] main_topic) (lit "paris")
     = Some (lit "paris")
  /\ dict_get (combined_entities nfkd_latin1 answer_entities [] main_topic) (lit "paris")
     <> first_seen nfkd_latin1 (lit "paris") (candidates answer_entities [] main_topic).
Proof.
  vm_compute. repeat split; discriminate.
Qed.

(** C10: two non-empty names without any ASCII character in their
    decomposition both normalize to the empty string, are the same entity
    for [sameEntity], and the merge keeps one entry for the two, under
    the empty key. *)
Theorem non_ascii_names_collapse (nfkd str_lower : ustr -> ustr) (a b : ustr) :
  a <> [] -> b <> [] ->
  no_ascii (nfkd a) -> no_ascii (nfkd b) ->
  normalize_text nfkd a = [] /\ normalize_text nfkd b = []
  /\ sameEntity nfkd a b = true
  /\ combined_entities nfkd [a] [] (Some b) = [([], b)]
  /\ combined_entities nfkd [a; b] [] None = [([], b)]
  /\ combined_entities nfkd [a] [b] None = [([], b)]
  /\ unique_entities_to_fetch nfkd str_lower [a] [] (Some b) = [b].
Proof.
  intros Ha Hb Na Nb.
  pose proof (normalize_text_no_ascii nfkd a Na) as Ea.
  pose proof (normalize_text_no_ascii nfkd b Nb) as Eb.
  assert (Ta : nonempty a = true) by (destruct a; [contradiction | reflexivity]).
  assert (Tb : nonempty b = true) by (destruct b; [contradiction | reflexivity]).
  unfold sameEntity, unique_entities_to_fetch, combined_entities.
  simpl. rewrite Ta, Tb, Ea, Eb. simpl. repeat split; reflexivity.
Qed.

Lemma non_ascii_names_collapse_witness :
  let a := [20013; 22269] in
  let b := [26481; 20140] in
  normalize_text nfkd_latin1 a = [] /\ normalize_text nfkd_latin1 b = []
  /\ sameEntity nfkd_latin1 a b = true
  /\ combined_entities nfkd_latin1 [a] [] (Some b) = [([], b)]
  /\ combined_entities nfkd_latin1 [a; b] [] None = [([], b)]
  /\ combined_entities nfkd_latin1 [a] [b] None = [([], b)]
  /\ unique_entities_to_fetch nfkd_latin1 (fun s => s) [a] [] (Some b) = [b].
Proof.
  apply (@non_ascii_names_collapse nfkd_latin1 (fun s => s)
            [20013; 22269] [26481; 20140]).
  - discriminate.
  - discriminate.
  - vm_compute. repeat constructor.
  - vm_compute. repeat constructor.
Defined.

(** ** The LLM-backed steps *)

Ltac run_monad :=
  unfold messages_create, ask, content0_text, lift_result, try_except,
    st_warning, st_error, bind, ret, raise, emit, modify, lift_io;
  cbn [fst snd].

Lemma strip_blank text :
  Forall (fun c => py_isspace c = true) text -> strip text = [].
Proof. apply strip_by_all. Qed.

(** C9: on a text that is empty or all whitespace the structurer answers
    with the empty list of pairs, which is not the failure signal [None],
    and the trace is left as it was: no request is sent and nothing is
    reported. *)
Theorem structure_qa_pairs_blank
    (json_loads : ustr -> exn + json) (client : Client) (text_input : ustr)
    (s : trace * unit) :
  Forall (fun c => py_isspace c = true) text_input ->
  structure_qa_pairs json_loads client text_input s = (inr (Some []), s)
  /\ Some (@nil json) <> None.
Proof.
  intros H. unfold structure_qa_pairs. rewrite (strip_blank H).
  split; [reflexivity | discriminate].
Qed.

Lemma structure_qa_pairs_blank_witness :
  structure_qa_pairs (fun _ => inr JNull) unreachable_client [32; 9; 10; 160] ([], tt)
    = (inr (Some []), ([], tt))
  /\ Some (@nil json) <> None.
Proof.
  apply (@structure_qa_pairs_blank (fun _ => inr JNull) unreachable_client
           [32; 9; 10; 160] ([], tt)).
  repeat constructor.
Defined.

Lemma firstn_firstn_same {A} (n : nat) (l : list A) :
  firstn n (firstn n l) = firstn n l.
Proof. rewrite firstn_firstn, Nat.min_id. reflexivity. Qed.

Lemma disambiguation_prompt_truncated entity_name options question answer :
  disambiguation_prompt entity_name options question answer
  = disambiguation_prompt entity_name (firstn 15 options) question answer.
Proof.
  unfold disambiguation_prompt, option_lines.
  rewrite firstn_firstn_same. reflexivity.
Qed.

Lemma chosen_title_member options outcome t :
  chosen_title options outcome = Some t ->
  In t options /\ t <> [] /\ t <> lit "NONE"
  /\ exists text rest, outcome = inr (text :: rest) /\ t = clean_title text.
Proof.
  unfold chosen_title. destruct outcome as [e | [|text rest]]; try discriminate.
  destruct (nonempty (clean_title text) && negb (ustr_eqb (clean_title text) (lit "NONE"))
            && in_options (clean_title text) options) eqn:E; [|discriminate].
  intros H; injection H as <-.
  apply andb_true_iff in E. destruct E as [E E3].
  apply andb_true_iff in E. destruct E as [E1 E2].
  apply negb_true_iff, ustr_eqb_neq in E2.
  apply existsb_ustr_eqb_In in E3.
  repeat split; try assumption.
  - intros E0. rewrite E0 in E1. discriminate.
  - exists text, rest. split; reflexivity.
Qed.

(** The resolver never raises; it sends at most one request, and its
    answer is [chosen_title] of the outcome of that request. *)
Lemma resolve_disambiguation_run client entity_name options question answer
    (s : trace * unit) :
  exists new,
    resolve_disambiguation (Some client) entity_name (options) question answer s
    = (inr (match options with
            | [] => None
            | _ :: _ =>
                chosen_title options
                  (client (fst s) haiku 50%Z
                     (disambiguation_prompt entity_name options question answer))
            end),
       (fst s ++ new, snd s))
    /\ (options = [] -> new = []).
Proof.
  destruct s as [tr []].
  destruct options as [|o options].
  - exists []. simpl. rewrite app_nil_r. split; reflexivity.
  - unfold resolve_disambiguation. run_monad.
    set (prompt := disambiguation_prompt _ _ _ _).
    destruct (client tr haiku 50%Z prompt) as [e | [|text rest]]; cbn [chosen_title].
    + destruct (is_api_error e); cbn [fst snd]; eexists;
        (split; [rewrite <- !app_assoc; reflexivity | discriminate]).
    + cbn [is_api_error exn_cls fst snd]. eexists.
      split; [rewrite <- !app_assoc; reflexivity | discriminate].
    + destruct (nonempty (clean_title text) && _ && _); eexists;
        (split; [reflexivity | discriminate]).
Qed.

Lemma chosen_title_complete options text rest :
  In (clean_title text) options ->
  clean_title text <> [] -> clean_title text <> lit "NONE" ->
  chosen_title options (inr (text :: rest)) = Some (clean_title text).
Proof.
  intros Hin Hne Hnone. unfold chosen_title.
  apply existsb_ustr_eqb_In in Hin. unfold in_options. rewrite Hin.
  apply ustr_eqb_neq in Hnone. rewrite Hnone.
  destruct (clean_title text); [contradiction | reflexivity].
Qed.

(** C4: for every client, candidate list, context and state of the world
    the resolver returns, and does not raise.  A title that it returns is
    the text of the response after [strip()] and the stripping of quotes,
    and is a member of the whole candidate list; conversely every such
    member that is neither empty nor NONE is accepted, wherever it stands
    in the list.  A request that raises gives the absent result.  The
    prompt is the one built from the first 15 candidates alone. *)
Theorem resolve_disambiguation_contract
    (client : option Client) (entity_name : ustr) (options : list ustr)
    (question answer : ustr) (s : trace * unit) :
  let prompt := disambiguation_prompt entity_name options question answer in
  exists (r : option ustr) (new : trace),
    resolve_disambiguation client entity_name options question answer s
      = (inr r, (fst s ++ new, snd s))
    /\ (forall t, r = Some t ->
          In t options
          /\ exists c text rest,
               client = Some c
               /\ c (fst s) haiku 50%Z prompt = inr (text :: rest)
               /\ t = clean_title text)
    /\ (forall c text rest,
          client = Some c -> c (fst s) haiku 50%Z prompt = inr (text :: rest) ->
          In (clean_title text) options ->
          clean_title text <> [] -> clean_title text <> lit "NONE" ->
          r = Some (clean_title text))
    /\ (forall c e,
          client = Some c -> c (fst s) haiku 50%Z prompt = inl e -> r = None)
    /\ prompt
       = disambiguation_prompt entity_name (firstn 15 options) question answer.
Proof.
  intros prompt. destruct client as [c|].
  - destruct (resolve_disambiguation_run c entity_name options question answer s)
      as (new & Hrun & _).
    eexists. exists new. split; [exact Hrun|].
    fold prompt. split; [|split; [|split]].
    + intros t Ht. destruct options as [|o options]; [discriminate|].
      apply chosen_title_member in Ht.
      destruct Ht as (Hin & _ & _ & text & rest & Hout & Ht).
      split; [exact Hin|]. exists c, text, rest. repeat split; assumption.
    + intros c' text rest Hc Hout Hin Hne Hnone. injection Hc as <-.
      destruct options as [|o options]; [destruct Hin|].
      rewrite Hout. apply chosen_title_complete; assumption.
    + intros c' e Hc Hout. injection Hc as <-.
      destruct options; [reflexivity|]. rewrite Hout. reflexivity.
    + apply disambiguation_prompt_truncated.
  - exists None, []. destruct s as [tr []]. simpl. rewrite app_nil_r.
    split; [reflexivity|]. split; [discriminate|].
    split; [discriminate|]. split; [discriminate|].
    apply disambiguation_prompt_truncated.
Qed.

Example resolve_disambiguation_sixteenth :
  fst (resolve_disambiguation
         (Some (fun _ _ _ _ => inr [lit " 'Page P' "]))
         (lit "Page") sixteen_options [] [] ([], tt))
  = inr (Some (lit "Page P")).
Proof. vm_compute. reflexivity. Qed.

(** ** Title case *)

Lemma split_ws_cons c s :
  split_ws (c :: s)
  = if py_isspace c then split_ws s
    else match s with
         | [] => [[c]]
         | c' :: _ =>
             if py_isspace c' then [c] :: split_ws s
             else match split_ws s with
                  | w :: ws => (c :: w) :: ws
                  | [] => [[c]]
                  end
         end.
Proof. reflexivity. Qed.

Lemma split_ws_words s : Forall is_word (split_ws s).
Proof.
  induction s as [|c s IH]; [constructor|].
  rewrite split_ws_cons.
  destruct (py_isspace c) eqn:Ec; [exact IH|].
  assert (Hc : is_word [c]).
  { split; [discriminate | constructor; [exact Ec | constructor]]. }
  set (r := split_ws s) in *.
  destruct s as [|c' s']; [constructor; [exact Hc | constructor]|].
  destruct (py_isspace c'); [constructor; assumption|].
  destruct r as [|w ws]; [constructor; [exact Hc | constructor]|].
  inversion IH as [|? ? [Hw1 Hw2] Hws]; subst.
  constructor; [|exact Hws].
  split; [discriminate | constructor; assumption].
Qed.

Lemma split_ws_nonempty s : has_nonspace s = true -> split_ws s <> [].
Proof.
  induction s as [|c s IH]; [discriminate|].
  rewrite split_ws_cons. simpl has_nonspace.
  destruct (py_isspace c); simpl; [exact IH|].
  intros _. set (r := split_ws s).
  destruct s as [|c' s']; [discriminate|].
  destruct (py_isspace c'); [discriminate|].
  destruct r; discriminate.
Qed.

Lemma split_ws_blank s : has_nonspace s = false -> split_ws s = [].
Proof.
  induction s as [|c s IH]; [reflexivity|].
  rewrite split_ws_cons. simpl has_nonspace.
  destruct (py_isspace c); simpl; [exact IH | discriminate].
Qed.

Lemma has_nonspace_app a b :
  has_nonspace (a ++ b) = has_nonspace a || has_nonspace b.
Proof. apply existsb_app. Qed.

Lemma has_nonspace_join sep w ws :
  has_nonspace w = true -> has_nonspace (join sep (w :: ws)) = true.
Proof.
  intros H. destruct ws as [|w' ws]; [exact H|].
  change (join sep (w :: w' :: ws)) with (w ++ sep ++ join sep (w' :: ws)).
  rewrite has_nonspace_app, H. reflexivity.
Qed.

Lemma join_nonempty sep w ws : w <> [] -> join sep (w :: ws) <> [].
Proof.
  intros H. destruct ws as [|w' ws]; [exact H|].
  change (join sep (w :: w' :: ws)) with (w ++ sep ++ join sep (w' :: ws)).
  destruct w; [contradiction | discriminate].
Qed.

Lemma to_title_case_nonempty capitalize text :
  keeps_words capitalize ->
  has_nonspace text = true -> to_title_case capitalize text <> [].
Proof.
  intros Hcap Htext. unfold to_title_case.
  destruct text as [|c text]; [discriminate|]. cbn [nonempty negb].
  set (s := c :: text) in *.
  assert (Hcw : has_nonspace (capwords capitalize s) = true).
  { unfold capwords.
    pose proof (split_ws_words s) as Hw.
    pose proof (split_ws_nonempty s Htext) as Hne.
    destruct (split_ws s) as [|w ws]; [contradiction|].
    inversion Hw; subst. cbn [map].
    apply has_nonspace_join, Hcap. assumption. }
  pose proof (split_ws_words (capwords capitalize s)) as Hw.
  pose proof (split_ws_nonempty _ Hcw) as Hne.
  destruct (split_ws (capwords capitalize s)) as [|w ws]; [contradiction|].
  inversion Hw as [|? ? [Hw1 _] _]; subst.
  unfold lower_special. apply join_nonempty. exact Hw1.
Qed.

Lemma capital_not_space c : 65 <= c <= 90 -> py_isspace c = false.
Proof.
  intros H. unfold py_isspace.
  rewrite (proj2 (N.leb_gt c 13)) by lia.
  rewrite (proj2 (N.leb_gt c 32)) by lia.
  rewrite (proj2 (N.leb_gt 8192 c)) by lia.
  repeat match goal with
         | |- context [c =? ?k] => rewrite (proj2 (N.eqb_neq c k)) by lia
         end.
  rewrite !andb_false_r. reflexivity.
Qed.

Lemma capitalize_ascii_keeps_words : keeps_words capitalize_ascii.
Proof.
  intros w [Hne Hw]. destruct w as [|c w]; [contradiction|].
  inversion Hw as [|? ? Hc _]; subst.
  unfold capitalize_ascii, has_nonspace. cbn [existsb].
  apply orb_true_iff. left. apply negb_true_iff.
  unfold ascii_upper_char.
  destruct ((97 <=? c) && (c <=? 122)) eqn:E; [|exact Hc].
  apply andb_true_iff in E. destruct E as [E1 E2].
  apply N.leb_le in E1, E2. apply capital_not_space. lia.
Qed.

Example to_title_case_lord :
  to_title_case capitalize_ascii (lit "  the lord OF the   rings ")
  = lit "The Lord of the Rings".
Proof. vm_compute. reflexivity. Qed.

Example to_title_case_blank :
  to_title_case capitalize_ascii (lit "   ") = [] /\ to_title_case capitalize_ascii [] = [].
Proof. vm_compute. split; reflexivity. Qed.

(** ** The Wikipedia resolver *)

Ltac unfold_resolver :=
  unfold get_wikipedia_data, resolve_body, fetch_selected, _populate_from_page,
    _fetch_page_views, api_page, on_unexpected, resolve_disambiguation;
  run_monad.

Ltac reduce_run :=
  cbn beta iota delta
    [fst snd is_api_error is_zero_views exn_cls exn_str
     title length views url found error
     set_title set_length set_views set_url set_found set_error
     initial_page_info or_else].

(** Case analysis along the run: the outcomes of the external calls and
    of the tests, innermost first. *)
Ltac crunch :=
  repeat first
    [ progress reduce_run
    | match goal with
      | |- context [match ?x with _ => _ end] =>
          lazymatch x with
          | context [match _ with _ => _ end] => fail
          | _ => destruct x eqn:?
          end
      end ].

Ltac finish_run :=
  eexists; eexists;
  split; [apply f_equal2;
          [reflexivity | rewrite <- ?app_assoc; cbn [app]; reflexivity]|].

Lemma literal_prefix_nonempty (s x : ustr) : nonempty s = true -> s ++ x <> [].
Proof. destruct s; [discriminate | discriminate]. Qed.

Ltac message_nonempty :=
  solve [ apply literal_prefix_nonempty; reflexivity ].

(** C3: the resolver returns for every input and every behaviour of the
    services, and never raises.  Whenever an exception other than the
    zero-views signal was raised anywhere during the run, the result that
    is returned carries an error message, and the message is not empty. *)
Theorem get_wikipedia_data_total
    (capitalize : ustr -> ustr) (world : World) (client : option Client)
    (entity_name question answer : ustr) (days : Z) (tr : trace) :
  exists (r : PageInfo) (new : trace),
    get_wikipedia_data capitalize world client entity_name question answer days tr
      = (inr r, tr ++ new)
    /\ forall e, In (EvRaise e) new -> is_zero_views e = false ->
         exists m, error r = Some m /\ m <> [].
Proof.
  unfold_resolver.
  set (t0 := entity_name_title_case capitalize entity_name).
  crunch; finish_run; intros e0 Hin Hzv; reduce_run;
    first
      [ eexists; split; [reflexivity | message_nonempty]
      | exfalso; cbn [In] in Hin;
        repeat (destruct Hin as [Hin|Hin];
                [try discriminate; injection Hin as <-;
                 cbn [is_zero_views exn_cls] in *; congruence|]);
        exact Hin ].
Qed.

(** C8: when the page looked up under the title-cased name does not exist,
    the result has [found] false, the error message of the specification,
    letter for letter, and no length, views or URL; the title is the
    title-cased name, and the lookup is the only thing that happened. *)
Theorem page_not_found
    (capitalize : ustr -> ustr) (world : World) (client : option Client)
    (entity_name question answer : ustr) (days : Z) (tr : trace) :
  page_exists (wiki_page world tr (to_title_case capitalize entity_name)) = inr false ->
  get_wikipedia_data capitalize world client entity_name question answer days tr
  = (inr {| title := to_title_case capitalize entity_name;
            length := None; views := None; url := None; found := false;
            error := Some (lit "Page not found on Wikipedia.") |},
     tr ++ [EvPage (to_title_case capitalize entity_name)]).
Proof.
  intros H. unfold_resolver. unfold entity_name_title_case.
  rewrite H. reflexivity.
Qed.

Lemma page_not_found_witness :
  get_wikipedia_data capitalize_ascii sample_world None (lit "atlantis") [] [] 365 []
  = (inr {| title := lit "Atlantis";
            length := None; views := None; url := None; found := false;
            error := Some (lit "Page not found on Wikipedia.") |},
     [EvPage (lit "Atlantis")]).
Proof.
  apply (@page_not_found capitalize_ascii sample_world None (lit "atlantis") [] [] 365 []).
  reflexivity.
Defined.

(** X24: on the direct path the fields taken from the page do not depend on
    what the page-view request does: when the page under the title-cased
    name exists and is an article, the result has [found] true and takes
    title, length and URL from the page; when the request raises anything
    but the zero-views signal, [views] is absent and [error] holds the
    description of that failure. *)
Theorem article_fields_ignore_pageviews
    (capitalize : ustr -> ustr) (world : World) (client : option Client)
    (entity_name question answer : ustr) (days : Z) (tr : trace)
    (cats : list ustr) (text fullurl : ustr) (window : ustr * ustr) :
  let t0 := to_title_case capitalize entity_name in
  let page := wiki_page world tr t0 in
  page_exists page = inr true ->
  page_categories page = inr cats ->
  is_disambiguation_page cats = false ->
  page_text page = inr text ->
  page_fullurl page = inr fullurl ->
  date_window world (tr ++ [EvPage t0]) days = inr window ->
  exists (r : PageInfo) (new : trace),
    get_wikipedia_data capitalize world client entity_name question answer days tr
      = (inr r, tr ++ new)
    /\ found r = true
    /\ title r = page_title page
    /\ length r = Some (Z.of_nat (List.length text))
    /\ url r = Some fullurl
    /\ forall err,
         per_article world (tr ++ [EvPage t0; EvNow days])
                     (page_title page) (fst window) (snd window) = inl err ->
         is_zero_views err = false ->
         views r = None
         /\ error r = Some (lit "Pageview fetch error: " ++ exn_str err).
Proof.
  intros t0 page Hex Hcats Hdis Htext Hurl Hwin.
  unfold_resolver. unfold entity_name_title_case. fold t0. fold page.
  rewrite Hex. reduce_run. rewrite Hcats. reduce_run. rewrite Hdis.
  rewrite Htext. reduce_run. rewrite Hurl. reduce_run. rewrite Hwin. reduce_run.
  replace (tr ++ [EvPage t0; EvNow days]) with ((tr ++ [EvPage t0]) ++ [EvNow days])
    by (rewrite <- app_assoc; reflexivity).
  destruct (per_article world ((tr ++ [EvPage t0]) ++ [EvNow days])
              (page_title page) (fst window) (snd window)) as [err | items];
    reduce_run.
  - destruct (is_zero_views err) eqn:Ezv; reduce_run; finish_run;
      do 4 (split; [reflexivity|]);
      intros err' Herr Hzv; injection Herr as <-;
      first [congruence | split; reflexivity].
  - finish_run. do 4 (split; [reflexivity|]). intros err' Herr. discriminate.
Qed.

Lemma article_fields_ignore_pageviews_example :
  let t0 := to_title_case capitalize_ascii (lit "mercury (planet)") in
  let page := wiki_page sample_world [] t0 in
  let window := (lit "20250101", lit "20260101") in
  exists (r : PageInfo) (new : trace),
    get_wikipedia_data capitalize_ascii sample_world None
      (lit "mercury (planet)") [] [] 365 []
      = (inr r, [] ++ new)
    /\ found r = true
    /\ title r = page_title page
    /\ length r = Some (Z.of_nat (List.length (lit "Lorem ipsum")))
    /\ url r = Some (lit "https://en.wikipedia.org/wiki/Mercury (planet)")
    /\ forall err,
         per_article sample_world ([] ++ [EvPage t0; EvNow 365])
                     (page_title page) (fst window) (snd window) = inl err ->
         is_zero_views err = false ->
         views r = None
         /\ error r = Some (lit "Pageview fetch error: " ++ exn_str err).
Proof.
  apply (@article_fields_ignore_pageviews capitalize_ascii sample_world None
           (lit "mercury (planet)") [] [] 365 []
           [lit "Category:Planets"] (lit "Lorem ipsum")
           (lit "https://en.wikipedia.org/wiki/Mercury (planet)")
           (lit "20250101", lit "20260101"));
    reflexivity.
Defined.

Example pageview_failure_run :
  fst (get_wikipedia_data capitalize_ascii sample_world None
         (lit "mercury (planet)") [] [] 365 [])
  = inr {| title := lit "Mercury (planet)"; length := Some 11%Z; views := None;
           url := Some (lit "https://en.wikipedia.org/wiki/Mercury (planet)");
           found := true;
           error := Some (lit "Pageview fetch error: 503 Service Unavailable") |}.
Proof. vm_compute. reflexivity. Qed.


(** A run of the small encyclopedia in which the model picks a candidate
    that is again a disambiguation page. *)
Example second_level_is_not_followed :
  get_wikipedia_data capitalize_ascii sample_world
    (Some (answering (lit "Mercury (element)"))) (lit "mercury") [] [] 365 []
  = (inr {| title := lit "Mercury"; length := None; views := None; url := None;
            found := false;
            error := Some (lit "Disambiguation: Mercury. Options: Mercury (planet), Mercury (element), Mercury (myth)...") |},
     [EvPage (lit "Mercury");
      EvMessagesCreate haiku 50
        (disambiguation_prompt (lit "Mercury")
           [lit "Mercury (planet)"; lit "Mercury (element)"; lit "Mercury (myth)"] [] []);
      EvPage (lit "Mercury (element)")]).
Proof. vm_compute. reflexivity. Qed.

(** Where the title of a result comes from: the title-cased name when
    the result is not found, and otherwise a page that the run looked up
    and that exists. *)
Lemma resolver_title_origin
    (capitalize : ustr -> ustr) (world : World) (client : option Client)
    (entity_name question answer : ustr) (days : Z) (tr : trace) :
  exists (r : PageInfo) (new : trace),
    get_wikipedia_data capitalize world client entity_name question answer days tr
      = (inr r, tr ++ new)
    /\ (found r = false -> title r = to_title_case capitalize entity_name)
    /\ (found r = true ->
          exists before t,
            In (before, t) (page_lookups tr new)
            /\ page_exists (wiki_page world before t) = inr true
            /\ title r = page_title (wiki_page world before t)).
Proof.
  unfold_resolver. unfold entity_name_title_case.
  set (t0 := to_title_case capitalize entity_name) in *.
  crunch; finish_run; reduce_run; cbn [page_lookups app];
    (split; [intros Hf; first [reflexivity | discriminate Hf]|]);
    intros Hf; first
      [ discriminate Hf
      | solve [ do 2 eexists;
                split; [left; reflexivity | split; [eassumption | reflexivity]] ]
      | solve [ do 2 eexists;
                split; [right; left; reflexivity
                       | split; [eassumption | reflexivity]] ] ].
Qed.

(** C2, as the code has it.  The title of a result is the title-cased
    name whenever [found] is false, and otherwise the title of a page
    that the run looked up and that exists.  The title-cased name is
    empty exactly for the names without a character that is not
    whitespace.  So for a name with such a character the title is never
    empty, as long as existing pages have titles; and for an empty or
    blank name the title of a result that is not found is the empty
    string. *)
Theorem wiki_result_title_nonempty
    (capitalize : ustr -> ustr) (world : World) (client : option Client)
    (entity_name question answer : ustr) (days : Z) (tr : trace) :
  keeps_words capitalize ->
  exists (r : PageInfo) (new : trace),
    get_wikipedia_data capitalize world client entity_name question answer days tr
      = (inr r, tr ++ new)
    /\ (found r = false -> title r = to_title_case capitalize entity_name)
    /\ (found r = true ->
          exists before t,
            In (before, t) (page_lookups tr new)
            /\ page_exists (wiki_page world before t) = inr true
            /\ title r = page_title (wiki_page world before t))
    /\ (to_title_case capitalize entity_name = []
        <-> has_nonspace entity_name = false)
    /\ (has_nonspace entity_name = true ->
        (forall h t, page_exists (wiki_page world h t) = inr true ->
                     page_title (wiki_page world h t) <> []) ->
        title r <> [])
    /\ (has_nonspace entity_name = false -> found r = false -> title r = []).
Proof.
  intros Hcap.
  destruct (resolver_title_origin capitalize world client entity_name question
              answer days tr) as (r & new & Hrun & Hnf & Hf).
  assert (Hblank : has_nonspace entity_name = false ->
                   to_title_case capitalize entity_name = []).
  { intros H. unfold to_title_case.
    destruct (negb (nonempty entity_name)) eqn:E.
    - destruct entity_name; [reflexivity | discriminate].
    - unfold capwords. rewrite (split_ws_blank _ H). reflexivity. }
  exists r, new. split; [exact Hrun|]. split; [exact Hnf|]. split; [exact Hf|].
  split; [|split].
  - split; [|exact Hblank].
    intros H. destruct (has_nonspace entity_name) eqn:E; [|reflexivity].
    exfalso. exact (@to_title_case_nonempty capitalize entity_name Hcap E H).
  - intros Hname Hpages. destruct (found r) eqn:E.
    + destruct (Hf eq_refl) as (before & t & _ & Hex & ->).
      apply Hpages, Hex.
    + rewrite (Hnf eq_refl).
      exact (@to_title_case_nonempty capitalize entity_name Hcap Hname).
  - intros Hname Hfound. rewrite (Hnf Hfound). apply Hblank, Hname.
Qed.

Lemma sample_world_titles h t :
  page_exists (wiki_page sample_world h t) = inr true ->
  page_title (wiki_page sample_world h t) <> [].
Proof.
  cbn [wiki_page sample_world].
  repeat match goal with
         | |- context [ustr_eqb t ?k] =>
             destruct (ustr_eqb t k) eqn:?
         end;
    try (intros _;
         match goal with
         | H : ustr_eqb t _ = true |- _ =>
             apply ustr_eqb_eq in H; rewrite H; discriminate
         end).
  discriminate.
Qed.

Lemma wiki_result_title_nonempty_witness :
  exists (r : PageInfo) (new : trace),
    get_wikipedia_data capitalize_ascii sample_world None (lit "paris") [] [] 365 []
      = (inr r, [] ++ new)
    /\ (found r = false -> title r = to_title_case capitalize_ascii (lit "paris"))
    /\ (found r = true ->
          exists before t,
            In (before, t) (page_lookups [] new)
            /\ page_exists (wiki_page sample_world before t) = inr true
            /\ title r = page_title (wiki_page sample_world before t))
    /\ (to_title_case capitalize_ascii (lit "paris") = []
        <-> has_nonspace (lit "paris") = false)
    /\ (has_nonspace (lit "paris") = true ->
        (forall h t, page_exists (wiki_page sample_world h t) = inr true ->
                     page_title (wiki_page sample_world h t) <> []) ->
        title r <> [])
    /\ (has_nonspace (lit "paris") = false -> found r = false -> title r = []).
Proof.
  apply (@wiki_result_title_nonempty capitalize_ascii sample_world None
           (lit "paris") [] [] 365 []).
  exact capitalize_ascii_keeps_words.
Defined.

(** C2, as the specification states it, fails: the title-cased form of
    the empty name and of a name of spaces is the empty string, and it is
    the title of the result when no page is found. *)
Lemma wiki_result_title_can_be_empty :
  fst (get_wikipedia_data capitalize_ascii sample_world None (lit "  ") [] [] 365 [])
  = inr {| title := []; length := None; views := None; url := None;
           found := false;
           error := Some (lit "Page not found on Wikipedia.") |}
  /\ fst (get_wikipedia_data capitalize_ascii sample_world None [] [] [] 365 [])
     = inr {| title := []; length := None; views := None; url := None;
              found := false;
              error := Some (lit "Page not found on Wikipedia.") |}.
Proof. vm_compute. split; reflexivity. Qed.

(** The same failure after a disambiguation: the model picks the planet,
    whose page views cannot be fetched. *)
Example pageview_failure_after_disambiguation :
  let run := get_wikipedia_data capitalize_ascii sample_world
               (Some (answering (lit "Mercury (planet)"))) (lit "mercury") [] [] 365 [] in
  fst run
  = inr {| title := lit "Mercury (planet)"; length := Some 11%Z; views := None;
           url := Some (lit "https://en.wikipedia.org/wiki/Mercury (planet)");
           found := true;
           error := Some (lit "Pageview fetch error: 503 Service Unavailable") |}
  /\ (llm_requests (snd run) = 1)%nat.
Proof. vm_compute. repeat split; reflexivity. Qed.

Example pageviews_are_summed :
  fst (get_wikipedia_data capitalize_ascii sample_world None (lit "paris") [] [] 365 [])
  = inr {| title := lit "Paris"; length := Some 11%Z; views := Some 300%Z;
           url := Some (lit "https://en.wikipedia.org/wiki/Paris");
           found := true; error := None |}.
Proof. vm_compute. reflexivity. Qed.

(** ** The merged dictionary has one entry per key *)

Lemma dict_set_keys d k v :
  map fst (dict_set d k v)
  = if existsb (fun k' => ustr_eqb k' k) (map fst d) then map fst d
    else map fst d ++ [k].
Proof.
  induction d as [|[k0 v0] d IH]; simpl; [reflexivity|].
  destruct (ustr_eqb k0 k) eqn:E; simpl; [reflexivity|].
  rewrite IH. destruct (existsb _ (map fst d)); reflexivity.
Qed.

Lemma dict_set_NoDup d k v : NoDup (map fst d) -> NoDup (map fst (dict_set d k v)).
Proof.
  intros H. rewrite dict_set_keys.
  destruct (existsb (fun k' => ustr_eqb k' k) (map fst d)) eqn:E; [exact H|].
  apply NoDup_app; [exact H | constructor; [intros [] | constructor] |].
  intros x Hx [Hk|[]]. subst x.
  assert (existsb (fun k' => ustr_eqb k' k) (map fst d) = true); [|congruence].
  apply existsb_exists. exists k. split; [exact Hx | apply ustr_eqb_refl].
Qed.

Lemma combined_entities_keys_unique nfkd A Q T :
  NoDup (map fst (combined_entities nfkd A Q T)).
Proof.
  rewrite combined_entities_fold.
  assert (G : forall cands d, NoDup (map fst d) ->
                NoDup (map fst (fold_left (merge_entity nfkd) cands d))).
  { induction cands as [|e cands IH]; intros d Hd; [exact Hd|].
    simpl. apply IH. destruct e as [e|]; simpl; [|exact Hd].
    destruct (nonempty e); [apply dict_set_NoDup|]; exact Hd. }
  apply G. constructor.
Qed.

(** ** A service that is down *)

Example unexpected_error_is_reported :
  let down := Exn OtherError (lit "Connection reset by peer") in
  let world :=
    {| wiki_page := fun _ t =>
         {| page_exists := inl down; page_categories := inl down;
            page_links := inl down; page_title := t;
            page_text := inl down; page_fullurl := inl down |};
       date_window := fun _ _ => inl (Exn OverflowError (lit "date value out of range"));
       per_article := fun _ _ _ _ => inl down |} in
  get_wikipedia_data capitalize_ascii world None (lit "paris") [] [] 365 []
  = (inr {| title := lit "Paris"; length := None; views := None; url := None;
            found := false;
            error := Some (lit "Unexpected error: Connection reset by peer") |},
     [EvPage (lit "Paris"); EvRaise down;
      EvStError (lit "Unexpected error fetching Wikipedia data for 'Paris': Connection reset by peer")]).
Proof. vm_compute. reflexivity. Qed.

(** A day count outside the range of dates: the overflow is raised after
    the page has been read, and is reported like any other failure. *)
Example overflowing_day_count_is_reported :
  let world :=
    {| wiki_page := wiki_page sample_world;
       date_window := fun _ _ => inl (Exn OverflowError (lit "date value out of range"));
       per_article := per_article sample_world |} in
  fst (get_wikipedia_data capitalize_ascii world None (lit "paris") [] [] 4000000 [])
  = inr {| title := lit "Paris"; length := Some 11%Z; views := None;
           url := Some (lit "https://en.wikipedia.org/wiki/Paris");
           found := true;
           error := Some (lit "Unexpected error: date value out of range") |}.
Proof. vm_compute. reflexivity. Qed.

(* ===================================================================== *)
(** * Further properties of the code *)
(* ===================================================================== *)

(** ** utils/text_utils.py *)

Lemma ascii_lower_char_fixed c :
  ascii_lower_char c = c <-> ~ (65 <= c <= 90).
Proof.
  unfold ascii_lower_char.
  destruct ((65 <=? c) && (c <=? 90)) eqn:E.
  - apply andb_true_iff in E. destruct E as [E1 E2].
    apply N.leb_le in E1, E2. split; intros H; [lia | exfalso; apply H; lia].
  - apply andb_false_iff in E. split; [|reflexivity].
    intros _ [H1 H2]. destruct E as [E|E]; apply N.leb_gt in E; lia.
Qed.

(** X1: whatever the input and whatever the decomposition table, a value
    of [normalize_text] consists of ASCII characters none of which is a
    capital letter, and it has no whitespace at either end: stripping it
    again changes nothing. *)
Theorem normalize_text_shape (nfkd : ustr -> ustr) (txt : ustr) :
  Forall (fun c => c < 128 /\ ~ (65 <= c <= 90)) (normalize_text nfkd txt)
  /\ strip (normalize_text nfkd txt) = normalize_text nfkd txt.
Proof.
  split.
  - eapply Forall_impl; [|apply normalize_text_folded].
    intros c [Ha Hl]. split.
    + apply N.ltb_lt. exact Ha.
    + apply ascii_lower_char_fixed. exact Hl.
  - unfold normalize_text. destruct (negb (nonempty txt)); [reflexivity|].
    apply strip_by_idempotent.
Qed.

(** X2: given that [str.capitalize] keeps a visible character in every
    word, [to_title_case] gives the empty string exactly for the inputs
    without any character that is not whitespace. *)
Theorem to_title_case_empty_iff (capitalize : ustr -> ustr) (text : ustr) :
  keeps_words capitalize ->
  (to_title_case capitalize text = [] <-> has_nonspace text = false).
Proof.
  intros Hcap. split.
  - intros H. destruct (has_nonspace text) eqn:E; [|reflexivity].
    exfalso. exact (@to_title_case_nonempty capitalize text Hcap E H).
  - intros H. unfold to_title_case.
    destruct (negb (nonempty text)) eqn:E.
    + destruct text; [reflexivity | discriminate].
    + unfold capwords. rewrite (split_ws_blank _ H). reflexivity.
Qed.

Lemma to_title_case_empty_iff_witness :
  to_title_case capitalize_ascii [32; 9; 160] = []
  <-> has_nonspace [32; 9; 160] = false.
Proof.
  apply (@to_title_case_empty_iff capitalize_ascii [32; 9; 160]).
  exact capitalize_ascii_keeps_words.
Defined.

(** Splitting undoes joining with single spaces. *)
Lemma split_ws_word_then w s :
  is_word w -> split_ws (w ++ 32 :: s) = w :: split_ws s.
Proof.
  intros [Hne Hw]. induction w as [|c w IH]; [contradiction|].
  inversion Hw as [|? ? Hc Hw']; subst.
  destruct w as [|c2 w].
  - cbn [app]. rewrite split_ws_cons, Hc. reflexivity.
  - inversion Hw' as [|? ? Hc2 _]; subst.
    assert (IH' : split_ws ((c2 :: w) ++ 32 :: s) = (c2 :: w) :: split_ws s).
    { apply IH; [discriminate | assumption]. }
    cbn [app] in *. rewrite split_ws_cons, Hc, Hc2, IH'. reflexivity.
Qed.

Lemma split_ws_word w : is_word w -> split_ws w = [w].
Proof.
  intros [Hne Hw]. induction w as [|c w IH]; [contradiction|].
  inversion Hw as [|? ? Hc Hw']; subst.
  rewrite split_ws_cons, Hc. destruct w as [|c2 w]; [reflexivity|].
  inversion Hw' as [|? ? Hc2 _]; subst. rewrite Hc2.
  rewrite IH; [reflexivity | discriminate | assumption].
Qed.

Lemma split_ws_join ws :
  Forall is_word ws -> split_ws (join (lit " ") ws) = ws.
Proof.
  induction 1 as [|w ws Hw Hws IH]; [reflexivity|].
  destruct ws as [|w' ws]; [apply split_ws_word, Hw|].
  change (join (lit " ") (w :: w' :: ws))
    with (w ++ 32 :: join (lit " ") (w' :: ws)).
  rewrite (split_ws_word_then _ Hw), IH. reflexivity.
Qed.

Lemma small_not_space c : 97 <= c <= 122 -> py_isspace c = false.
Proof.
  intros H. unfold py_isspace.
  rewrite (proj2 (N.leb_gt c 13)) by lia.
  rewrite (proj2 (N.leb_gt c 32)) by lia.
  rewrite (proj2 (N.leb_gt 8192 c)) by lia.
  repeat match goal with
         | |- context [c =? ?k] => rewrite (proj2 (N.eqb_neq c k)) by lia
         end.
  rewrite !andb_false_r. reflexivity.
Qed.

Lemma ascii_lower_word w : is_word w -> is_word (ascii_lower w).
Proof.
  intros [Hne Hw]. split.
  - destruct w; [contradiction | discriminate].
  - unfold ascii_lower. apply Forall_map.
    eapply Forall_impl; [|exact Hw]. intros c Hc. cbv beta in *.
    unfold ascii_lower_char.
    destruct ((65 <=? c) && (c <=? 90)) eqn:E; [|exact Hc].
    apply andb_true_iff in E. destruct E as [E1 E2].
    apply N.leb_le in E1, E2. apply small_not_space. lia.
Qed.

Lemma lower_special_words ws : Forall is_word ws -> Forall is_word (lower_special ws).
Proof.
  intros H. destruct H as [|w ws Hw Hws]; [constructor|].
  unfold lower_special. constructor; [exact Hw|].
  apply Forall_map. eapply Forall_impl; [|exact Hws].
  intros x Hx. cbv beta.
  destruct (in_words x special_words); [apply ascii_lower_word|]; exact Hx.
Qed.

Lemma to_title_case_words capitalize text :
  Forall (fun w => is_word (capitalize w)) (split_ws text) ->
  to_title_case capitalize text = join (lit " ") (title_words capitalize text)
  /\ Forall is_word (title_words capitalize text).
Proof.
  intros Hcap.
  assert (Hmap : Forall is_word (map capitalize (split_ws text))).
  { apply Forall_map. exact Hcap. }
  split; [|apply lower_special_words, Hmap].
  unfold to_title_case, title_words.
  destruct (negb (nonempty text)) eqn:E.
  - destruct text; [reflexivity | discriminate].
  - unfold capwords. rewrite (split_ws_join Hmap). reflexivity.
Qed.

(** X3: when [str.capitalize] turns the words of the input into words,
    the title-cased text is its words joined by single spaces: splitting
    it gives back exactly the capitalized words, with the small words
    after the first one in lower case, and joining them again gives the
    same text, so there is no whitespace at the ends and no run of
    whitespace inside. *)
Theorem to_title_case_single_spaced (capitalize : ustr -> ustr) (text : ustr) :
  Forall (fun w => is_word (capitalize w)) (split_ws text) ->
  split_ws (to_title_case capitalize text)
    = lower_special (map capitalize (split_ws text))
  /\ join (lit " ") (split_ws (to_title_case capitalize text))
     = to_title_case capitalize text.
Proof.
  intros Hcap.
  destruct (to_title_case_words capitalize text Hcap) as [E Hw].
  rewrite E, (split_ws_join Hw). split; reflexivity.
Qed.

Lemma to_title_case_single_spaced_witness :
  let text := lit "  the lord OF   the rings " in
  split_ws (to_title_case capitalize_ascii text)
    = lower_special (map capitalize_ascii (split_ws text))
  /\ join (lit " ") (split_ws (to_title_case capitalize_ascii text))
     = to_title_case capitalize_ascii text.
Proof.
  apply (@to_title_case_single_spaced capitalize_ascii (lit "  the lord OF   the rings ")).
  vm_compute.
  repeat (constructor; [split; [discriminate | repeat constructor]|]).
  constructor.
Defined.

Lemma in_special_words x :
  in_words x special_words = true -> In x special_words.
Proof. apply existsb_ustr_eqb_In. Qed.

Lemma capitalize_title_words capitalize ws :
  Forall (fun w => capitalize (capitalize w) = capitalize w) ws ->
  Forall (fun sw => capitalize (ascii_lower sw) = sw) special_words ->
  map capitalize (lower_special (map capitalize ws)) = map capitalize ws.
Proof.
  intros Hidem Hsmall. destruct Hidem as [|w ws Hw Hws]; [reflexivity|].
  cbn [map lower_special]. rewrite Hw. f_equal.
  induction Hws as [|x xs Hx _ IH]; [reflexivity|].
  cbn [map]. rewrite IH. f_equal.
  destruct (in_words (capitalize x) special_words) eqn:E; [|exact Hx].
  apply in_special_words in E.
  exact (proj1 (Forall_forall _ _) Hsmall _ E).
Qed.

(** X4: title-casing a title-cased text changes nothing, provided that
    [str.capitalize] turns each word of the input into a word on which it
    has no further effect, and capitalizes the ten small words from their
    lower-case spelling. *)
Theorem to_title_case_idempotent (capitalize : ustr -> ustr) (text : ustr) :
  Forall (fun w => is_word (capitalize w)) (split_ws text) ->
  Forall (fun w => capitalize (capitalize w) = capitalize w) (split_ws text) ->
  Forall (fun sw => capitalize (ascii_lower sw) = sw) special_words ->
  to_title_case capitalize (to_title_case capitalize text)
  = to_title_case capitalize text.
Proof.
  intros Hword Hidem Hsmall.
  destruct (to_title_case_words capitalize text Hword) as [E Hw].
  pose proof (capitalize_title_words capitalize Hidem Hsmall) as Hcap.
  fold (title_words capitalize text) in Hcap.
  assert (Hword2 : Forall (fun w => is_word (capitalize w))
                          (split_ws (to_title_case capitalize text))).
  { rewrite E, (split_ws_join Hw).
    apply (proj1 (Forall_map capitalize is_word _)).
    rewrite Hcap. apply Forall_map. exact Hword. }
  destruct (to_title_case_words capitalize _ Hword2) as [E2 _].
  rewrite E2. unfold title_words at 1.
  rewrite E at 1. rewrite (split_ws_join Hw), Hcap.
  symmetry. exact E.
Qed.

Lemma to_title_case_idempotent_witness :
  let text := lit " the lord OF the rings" in
  to_title_case capitalize_ascii (to_title_case capitalize_ascii text)
  = to_title_case capitalize_ascii text.
Proof.
  apply (@to_title_case_idempotent capitalize_ascii (lit " the lord OF the rings")).
  - vm_compute.
    repeat (constructor; [split; [discriminate | repeat constructor]|]).
    constructor.
  - vm_compute. repeat constructor.
  - vm_compute. repeat constructor.
Defined.

(** ** app.py: the merged list of entities *)

Lemma dict_get_In d k v : dict_get d k = Some v -> In (k, v) d.
Proof.
  induction d as [|[k0 v0] d IH]; simpl; [discriminate|].
  destruct (ustr_eqb k0 k) eqn:E.
  - apply ustr_eqb_eq in E. intros H; injection H as ->. subst. left. reflexivity.
  - intros H. right. apply IH, H.
Qed.

Lemma In_dict_get d k v : NoDup (map fst d) -> In (k, v) d -> dict_get d k = Some v.
Proof.
  induction d as [|[k0 v0] d IH]; simpl; [intros _ []|].
  intros Hnd [H|H].
  - injection H as -> ->. rewrite ustr_eqb_refl. reflexivity.
  - inversion Hnd as [|? ? Hnotin Hnd']; subst.
    destruct (ustr_eqb k0 k) eqn:E; [|apply IH; assumption].
    apply ustr_eqb_eq in E. subst k0. exfalso. apply Hnotin.
    apply in_map_iff. exists (k, v). split; [reflexivity | exact H].
Qed.

Lemma dict_set_Forall (P : ustr * ustr -> Prop) d k v :
  Forall P d -> P (k, v) -> Forall P (dict_set d k v).
Proof.
  intros Hd Hkv. induction Hd as [|[k0 v0] d H0 Hd IH]; simpl.
  - constructor; [exact Hkv | constructor].
  - destruct (ustr_eqb k0 k) eqn:E.
    + apply ustr_eqb_eq in E. subst k0. constructor; assumption.
    + constructor; assumption.
Qed.

Lemma combined_entities_own_keys nfkd A Q T :
  Forall (own_key nfkd) (combined_entities nfkd A Q T).
Proof.
  rewrite combined_entities_fold.
  assert (G : forall cands d, Forall (own_key nfkd) d ->
                Forall (own_key nfkd) (fold_left (merge_entity nfkd) cands d)).
  { induction cands as [|e cands IH]; intros d Hd; [exact Hd|].
    simpl. apply IH. destruct e as [e|]; simpl; [|exact Hd].
    destruct (nonempty e) eqn:Ee; [|exact Hd].
    apply dict_set_Forall; [exact Hd | split; [reflexivity | exact Ee]]. }
  apply G. constructor.
Qed.

Lemma insert_by_Permutation key x l : Permutation (insert_by key x l) (x :: l).
Proof.
  induction l as [|y l IH]; simpl; [reflexivity|].
  destruct (ustr_leb (key x) (key y)); [reflexivity|].
  rewrite IH. apply perm_swap.
Qed.

Lemma sorted_by_Permutation key l : Permutation (sorted_by key l) l.
Proof.
  induction l as [|x l IH]; simpl; [reflexivity|].
  rewrite insert_by_Permutation, IH. reflexivity.
Qed.

Lemma values_in_dict (d : dict) v : In v (dict_values d) <-> exists k, In (k, v) d.
Proof.
  unfold dict_values. rewrite in_map_iff. split.
  - intros ([k v'] & E & H). simpl in E. subst. exists k. exact H.
  - intros (k & H). exists (k, v). split; [reflexivity | exact H].
Qed.

Lemma entity_in_iff_last_seen (nfkd str_lower : ustr -> ustr)
    (answer_entities question_entities : list ustr) (main_topic : option ustr)
    (e : ustr) :
  In e (unique_entities_to_fetch nfkd str_lower
          answer_entities question_entities main_topic)
  <-> last_seen nfkd (normalize_text nfkd e)
        (candidates answer_entities question_entities main_topic) = Some e.
Proof.
  unfold unique_entities_to_fetch.
  pose proof (combined_entities_own_keys nfkd
                answer_entities question_entities main_topic) as Hown.
  pose proof (combined_entities_keys_unique nfkd
                answer_entities question_entities main_topic) as Hnd.
  assert (Hget : forall k,
             dict_get (combined_entities nfkd answer_entities question_entities
                                         main_topic) k
             = last_seen nfkd k
                 (candidates answer_entities question_entities main_topic)).
  { intros k. rewrite combined_entities_fold, dict_get_merge_all.
    destruct (last_seen _ _ _); reflexivity. }
  set (d := combined_entities nfkd answer_entities question_entities main_topic) in *.
  rewrite <- Hget. split.
  - intros H. apply (Permutation_in _ (sorted_by_Permutation str_lower _)) in H.
    apply values_in_dict in H. destruct H as (k & H).
    pose proof (proj1 (Forall_forall _ _) Hown _ H) as [Hk _]. simpl in Hk.
    subst k. apply In_dict_get; assumption.
  - intros H. apply dict_get_In in H.
    apply (Permutation_in _ (Permutation_sym (sorted_by_Permutation str_lower _))).
    apply values_in_dict. eexists. exact H.
Qed.

(** X5: an entity is in the list that is looked up exactly when it is the
    last of the candidates (answer entities, question entities, key
    entity, in this order) that is not empty and has its normalized
    form. *)
Theorem unique_entities_membership (nfkd str_lower : ustr -> ustr)
    (answer_entities question_entities : list ustr) (main_topic : option ustr)
    (e : ustr) :
  In e (unique_entities_to_fetch nfkd str_lower
          answer_entities question_entities main_topic)
  <-> last_seen nfkd (normalize_text nfkd e)
        (candidates answer_entities question_entities main_topic) = Some e.
Proof. apply entity_in_iff_last_seen. Qed.

Lemma find_rev_some {A} (f : A -> bool) (l : list A) x :
  In x l -> f x = true -> exists y, find f (rev l) = Some y.
Proof.
  intros Hin Hf. destruct (find f (rev l)) as [y|] eqn:E; [exists y; reflexivity|].
  exfalso. apply in_rev in Hin.
  rewrite (find_none _ _ E x Hin) in Hf. discriminate.
Qed.

Lemma last_seen_candidate nfkd k cands e :
  last_seen nfkd k cands = Some e ->
  In (Some e) cands /\ e <> [] /\ normalize_text nfkd e = k.
Proof.
  unfold last_seen, first_seen.
  destruct (find (has_key nfkd k) (rev cands)) as [y|] eqn:E; [|discriminate].
  intros ->. apply find_some in E. destruct E as [Hin Hk].
  apply in_rev in Hin. simpl in Hk.
  apply andb_true_iff in Hk. destruct Hk as [Hne Hk].
  apply ustr_eqb_eq in Hk.
  repeat split; [exact Hin | | exact Hk].
  intros ->. discriminate.
Qed.

Lemma nonempty_candidate_represented (nfkd str_lower : ustr -> ustr)
    (answer_entities question_entities : list ustr) (main_topic : option ustr) c :
  In (Some c) (candidates answer_entities question_entities main_topic) ->
  c <> [] ->
  exists e,
    In e (unique_entities_to_fetch nfkd str_lower
            answer_entities question_entities main_topic)
    /\ normalize_text nfkd e = normalize_text nfkd c.
Proof.
  intros Hin Hne.
  set (cands := candidates answer_entities question_entities main_topic) in *.
  assert (Hk : has_key nfkd (normalize_text nfkd c) (Some c) = true).
  { simpl. rewrite ustr_eqb_refl. destruct c; [contradiction | reflexivity]. }
  destruct (find_rev_some (has_key nfkd (normalize_text nfkd c)) cands _ Hin Hk)
    as (y & Hy).
  assert (Hl : last_seen nfkd (normalize_text nfkd c) cands = y).
  { unfold last_seen, first_seen. rewrite Hy. reflexivity. }
  pose proof (find_some _ _ Hy) as [_ Hky].
  destruct y as [e|]; [|discriminate].
  destruct (last_seen_candidate _ _ _ Hl) as (_ & _ & He).
  exists e. split; [|exact He].
  apply entity_in_iff_last_seen. rewrite He. exact Hl.
Qed.

(** X6: every entity that is looked up is one of the candidates and is
    not empty, and every candidate that is not empty is represented: the
    list holds an entity with the same normalized form. *)
Theorem unique_entities_cover_candidates (nfkd str_lower : ustr -> ustr)
    (answer_entities question_entities : list ustr) (main_topic : option ustr) :
  let cands := candidates answer_entities question_entities main_topic in
  let out := unique_entities_to_fetch nfkd str_lower
               answer_entities question_entities main_topic in
  (forall e, In e out -> In (Some e) cands /\ e <> [])
  /\ (forall c, In (Some c) cands -> c <> [] ->
        exists e, In e out /\ normalize_text nfkd e = normalize_text nfkd c).
Proof.
  intros cands out. split.
  - intros e H. apply entity_in_iff_last_seen in H.
    apply last_seen_candidate in H. destruct H as (H1 & H2 & _). split; assumption.
  - intros c Hin Hne. apply nonempty_candidate_represented; assumption.
Qed.

(** X7: the entities that are looked up are unique up to normalization:
    no two of them have the same normalized form (and so no two are
    equal). *)
Theorem unique_entities_normalized_unique (nfkd str_lower : ustr -> ustr)
    (answer_entities question_entities : list ustr) (main_topic : option ustr) :
  NoDup (map (normalize_text nfkd)
             (unique_entities_to_fetch nfkd str_lower
                answer_entities question_entities main_topic)).
Proof.
  unfold unique_entities_to_fetch.
  pose proof (combined_entities_own_keys nfkd
                answer_entities question_entities main_topic) as Hown.
  pose proof (combined_entities_keys_unique nfkd
                answer_entities question_entities main_topic) as Hnd.
  set (d := combined_entities nfkd answer_entities question_entities main_topic) in *.
  apply (Permutation_NoDup
           (Permutation_map (normalize_text nfkd)
              (Permutation_sym (sorted_by_Permutation str_lower (dict_values d))))).
  replace (map (normalize_text nfkd) (dict_values d)) with (map fst d); [exact Hnd|].
  unfold dict_values. rewrite map_map.
  clear Hnd. induction Hown as [|kv d' [Hk _] _ IH]; [reflexivity|].
  simpl. rewrite Hk, IH. reflexivity.
Qed.

Lemma ustr_leb_total a b : ustr_leb a b = false -> ustr_leb b a = true.
Proof.
  revert b. induction a as [|x a IH]; intros [|y b]; simpl; try discriminate;
    try reflexivity.
  destruct (N.ltb_spec x y); [discriminate|].
  destruct (N.ltb_spec y x); [reflexivity|].
  apply IH.
Qed.

Lemma ustr_leb_trans a b c :
  ustr_leb a b = true -> ustr_leb b c = true -> ustr_leb a c = true.
Proof.
  revert b c. induction a as [|x a IH]; intros [|y b] [|z c]; simpl;
    try discriminate; try reflexivity.
  destruct (N.ltb_spec x y), (N.ltb_spec y x), (N.ltb_spec y z), (N.ltb_spec z y),
    (N.ltb_spec x z), (N.ltb_spec z x);
    try discriminate; try reflexivity; try lia.
  apply IH.
Qed.

Lemma insert_by_sorted key x l :
  StronglySorted (key_le key) l -> StronglySorted (key_le key) (insert_by key x l).
Proof.
  induction 1 as [|y l Hl IH Hy]; simpl.
  - constructor; constructor.
  - destruct (ustr_leb (key x) (key y)) eqn:E.
    + constructor; [constructor; assumption|].
      constructor; [exact E|].
      eapply Forall_impl; [|exact Hy].
      intros z Hz. exact (ustr_leb_trans _ _ _ E Hz).
    + constructor; [exact IH|].
      apply Forall_forall. intros z Hz.
      apply (Permutation_in _ (insert_by_Permutation key x l)) in Hz.
      destruct Hz as [<-|Hz].
      * apply ustr_leb_total, E.
      * exact (proj1 (Forall_forall _ _) Hy _ Hz).
Qed.

Lemma sorted_by_sorted key l : StronglySorted (key_le key) (sorted_by key l).
Proof.
  induction l as [|x l IH]; simpl; [constructor | apply insert_by_sorted, IH].
Qed.

(** X8: the entities are looked up in the order of their lower-case
    spellings: in the list, the key of an entity is at most the key of
    every entity after it. *)
Theorem unique_entities_sorted (nfkd str_lower : ustr -> ustr)
    (answer_entities question_entities : list ustr) (main_topic : option ustr) :
  StronglySorted (fun x y => ustr_leb (str_lower x) (str_lower y) = true)
    (unique_entities_to_fetch nfkd str_lower
       answer_entities question_entities main_topic).
Proof. apply sorted_by_sorted. Qed.

(** Entities with the same key keep the order of the merge. *)
Lemma insert_by_stable key k x l :
  filter (fun y => ustr_eqb (key y) k) (insert_by key x l)
  = filter (fun y => ustr_eqb (key y) k) (x :: l).
Proof.
  induction l as [|y l IH]; [reflexivity|].
  cbn [insert_by]. destruct (ustr_leb (key x) (key y)) eqn:E; [reflexivity|].
  cbn [filter] in *. rewrite IH.
  destruct (ustr_eqb (key x) k) eqn:Ex; [|reflexivity].
  destruct (ustr_eqb (key y) k) eqn:Ey; [|reflexivity].
  apply ustr_eqb_eq in Ex, Ey. rewrite Ex, Ey in E.
  pose proof (ustr_leb_total _ _ E). congruence.
Qed.

(** X9: the sort is stable: the entities with one and the same lower-case
    spelling stand in the list in the order in which the merged
    dictionary holds them. *)
Theorem unique_entities_stable (nfkd str_lower : ustr -> ustr)
    (answer_entities question_entities : list ustr) (main_topic : option ustr)
    (k : ustr) :
  filter (fun y => ustr_eqb (str_lower y) k)
    (unique_entities_to_fetch nfkd str_lower
       answer_entities question_entities main_topic)
  = filter (fun y => ustr_eqb (str_lower y) k)
      (dict_values (combined_entities nfkd answer_entities question_entities
                                      main_topic)).
Proof.
  unfold unique_entities_to_fetch.
  induction (dict_values _) as [|x l IH]; [reflexivity|].
  cbn [sorted_by fold_right]. fold (sorted_by str_lower l).
  rewrite insert_by_stable. cbn [filter]. rewrite IH. reflexivity.
Qed.

(** ** utils/nlp_utils.py *)

Lemma set_add_In x s e : In e (set_add x s) <-> e = x \/ In e s.
Proof.
  unfold set_add. destruct (in_words x s) eqn:E.
  - apply existsb_ustr_eqb_In in E. split; [auto | intros [->|H]; assumption].
  - rewrite in_app_iff. simpl. split.
    + intros [H|[H|[]]]; [right; exact H | left; symmetry; exact H].
    + intros [H|H]; [right; left; symmetry; exact H | left; exact H].
Qed.

Lemma set_add_NoDup x s : NoDup s -> NoDup (set_add x s).
Proof.
  intros H. unfold set_add. destruct (in_words x s) eqn:E; [exact H|].
  apply NoDup_app; [exact H | constructor; [intros [] | constructor] |].
  intros y Hy [Hx|[]]. subst y.
  apply existsb_ustr_eqb_In in Hy. unfold in_words in E. congruence.
Qed.

Lemma add_span_In entities ent e :
  In e (add_span entities ent) <-> In e entities \/ kept_span ent e.
Proof.
  unfold add_span, kept_span.
  destruct (in_words (snd ent) ENTITY_TYPES_TO_KEEP) eqn:El.
  - apply existsb_ustr_eqb_In in El.
    destruct (nonempty (strip (fst ent))) eqn:Ene.
    + rewrite set_add_In. split.
      * intros [->|H]; [right | left; exact H].
        repeat split; [exact El|]. intros E0. rewrite E0 in Ene. discriminate.
      * intros [H|(_ & -> & _)]; [right; exact H | left; reflexivity].
    + split; [auto|]. intros [H|(_ & -> & H)]; [exact H|].
      destruct (strip (fst ent)); [contradiction | discriminate].
  - split; [auto|]. intros [H|(H & _)]; [exact H|].
    apply existsb_ustr_eqb_In in H. unfold in_words in El. congruence.
Qed.

Lemma add_span_NoDup entities ent : NoDup entities -> NoDup (add_span entities ent).
Proof.
  intros H. unfold add_span.
  destruct (in_words _ _); [|exact H].
  destruct (nonempty _); [apply set_add_NoDup|]; exact H.
Qed.

Lemma fold_add_span_In ents entities e :
  In e (fold_left add_span ents entities)
  <-> In e entities \/ exists ent, In ent ents /\ kept_span ent e.
Proof.
  revert entities. induction ents as [|ent ents IH]; intros entities; simpl.
  - split; [auto | intros [H|(ent & [] & _)]; exact H].
  - rewrite IH, add_span_In. split.
    + intros [[H|H]|(x & Hx & Hk)]; [left; exact H | right | right].
      * exists ent. split; [left; reflexivity | exact H].
      * exists x. split; [right; exact Hx | exact Hk].
    + intros [H|(x & [<-|Hx] & Hk)]; [left; left; exact H | left; right; exact Hk |].
      right. exists x. split; assumption.
Qed.

Lemma fold_add_span_NoDup ents entities :
  NoDup entities -> NoDup (fold_left add_span ents entities).
Proof.
  revert entities. induction ents as [|ent ents IH]; intros entities H; simpl;
    [exact H | apply IH, add_span_NoDup, H].
Qed.

(** Membership in the result needs of [list(entities)] only that it has
    the elements of the set. *)
Lemma extract_entities_In _nlp list_of_set text e :
  (forall s x, In x (list_of_set s) <-> In x s) ->
  (In e (extract_entities _nlp list_of_set text)
   <-> text <> [] /\ exists ent, In ent (_nlp text) /\ kept_span ent e).
Proof.
  intros Hset. unfold extract_entities.
  destruct text as [|c text]; cbn [nonempty negb].
  - split; [intros [] | intros [H _]; contradiction].
  - rewrite Hset, fold_add_span_In. split.
    + intros [[]|H]. split; [discriminate | exact H].
    + intros [_ H]. right. exact H.
Qed.

(** X10: the extractor returns nothing for the empty text.  Otherwise,
    whatever order [list] gives to the elements of the set, its result
    has no repetition and holds exactly the stripped texts of the spans
    whose label is on the allow-list and whose text is not blank; so
    every entity it returns is non-empty and has no whitespace at its
    ends. *)
Theorem extract_entities_spec
    (_nlp : ustr -> list (ustr * ustr)) (list_of_set : list ustr -> list ustr)
    (text : ustr) :
  (forall s, Permutation (list_of_set s) s) ->
  NoDup (extract_entities _nlp list_of_set text)
  /\ (forall e,
        In e (extract_entities _nlp list_of_set text)
        <-> text <> []
            /\ exists ent, In ent (_nlp text)
                 /\ In (snd ent) ENTITY_TYPES_TO_KEEP
                 /\ e = strip (fst ent) /\ e <> [])
  /\ (forall e, In e (extract_entities _nlp list_of_set text) ->
        e <> [] /\ strip e = e).
Proof.
  intros Hperm.
  assert (Hset : forall s x, In x (list_of_set s) <-> In x s).
  { intros s x. split; apply Permutation_in;
      [apply Hperm | apply Permutation_sym, Hperm]. }
  split; [|split].
  - unfold extract_entities. destruct (negb (nonempty text)); [constructor|].
    apply (Permutation_NoDup (Permutation_sym (Hperm _))).
    apply fold_add_span_NoDup. constructor.
  - intros e. apply extract_entities_In, Hset.
  - intros e H. apply (extract_entities_In _ _ _ _ Hset) in H.
    destruct H as (_ & ent & _ & _ & -> & Hne).
    split; [exact Hne | apply strip_by_idempotent].
Qed.

Lemma extract_entities_spec_witness :
  let _nlp := fun _ : ustr =>
    [(lit " Paris ", lit "GPE"); (lit "1889", lit "DATE");
     (lit "Paris", lit "GPE"); (lit "Gustave Eiffel", lit "PERSON")] in
  let text := lit "Gustave Eiffel built a tower in Paris in 1889" in
  NoDup (extract_entities _nlp (@rev ustr) text)
  /\ (forall e,
        In e (extract_entities _nlp (@rev ustr) text)
        <-> text <> []
            /\ exists ent, In ent (_nlp text)
                 /\ In (snd ent) ENTITY_TYPES_TO_KEEP
                 /\ e = strip (fst ent) /\ e <> [])
  /\ (forall e, In e (extract_entities _nlp (@rev ustr) text) ->
        e <> [] /\ strip e = e).
Proof.
  apply (@extract_entities_spec
           (fun _ : ustr =>
              [(lit " Paris ", lit "GPE"); (lit "1889", lit "DATE");
               (lit "Paris", lit "GPE"); (lit "Gustave Eiffel", lit "PERSON")])
           (@rev ustr)
           (lit "Gustave Eiffel built a tower in Paris in 1889")).
  intros s. apply Permutation_sym, Permutation_rev.
Defined.

Example extract_entities_run :
  extract_entities
    (fun _ => [(lit " Paris ", lit "GPE"); (lit "1889", lit "DATE");
               (lit "Paris", lit "GPE"); (lit "Gustave Eiffel", lit "PERSON")])
    (fun s => s) (lit "Gustave Eiffel built a tower in Paris in 1889")
  = [lit "Paris"; lit "Gustave Eiffel"].
Proof. vm_compute. reflexivity. Qed.

(** ** app.py: the literal answer *)

Lemma include_literal_answer_has nfkd answer answer_entities :
  answer <> [] ->
  (forall x, In x answer_entities -> x <> []) ->
  exists x,
    In x (include_literal_answer nfkd answer answer_entities)
    /\ x <> []
    /\ normalize_text nfkd x = normalize_text nfkd answer.
Proof.
  intros Hne Hents. unfold include_literal_answer.
  destruct answer as [|c answer]; [contradiction|]. cbn [nonempty andb].
  destruct (in_list_case_insensitive nfkd (c :: answer) answer_entities) eqn:E;
    cbn [negb].
  - unfold in_list_case_insensitive in E. apply existsb_exists in E.
    destruct E as (x & Hx & Hk). apply ustr_eqb_eq in Hk.
    exists x. repeat split; [exact Hx | apply Hents, Hx | exact Hk].
  - exists (c :: answer). repeat split; [|discriminate].
    apply in_or_app. right. left. reflexivity.
Qed.

(** X11: the literal answer is never lost.  For a pair with a non-empty
    answer the entities that are looked up hold one with the normalized
    form of the answer, whatever the extractor finds, with or without
    the entities of the question, and whatever the key entity is.  The
    extractor's entities stay in front of the literal answer, which is
    added at most once. *)
Theorem literal_answer_is_represented
    (nfkd str_lower : ustr -> ustr)
    (_nlp : ustr -> list (ustr * ustr)) (list_of_set : list ustr -> list ustr)
    (include_q_entities : bool) (question answer : ustr)
    (main_topic : option ustr) :
  (forall s x, In x (list_of_set s) <-> In x s) ->
  answer <> [] ->
  (exists e,
     In e (entities_of_pair nfkd str_lower _nlp list_of_set include_q_entities
                            question answer main_topic)
     /\ normalize_text nfkd e = normalize_text nfkd answer)
  /\ (let extracted := extract_entities _nlp list_of_set answer in
      include_literal_answer nfkd answer extracted = extracted
      \/ include_literal_answer nfkd answer extracted = extracted ++ [answer]).
Proof.
  intros Hset Hne. split.
  - unfold entities_of_pair.
    set (extracted := extract_entities _nlp list_of_set answer).
    assert (Hents : forall x, In x extracted -> x <> []).
    { intros x Hx. apply (extract_entities_In _ _ _ _ Hset) in Hx.
      destruct Hx as (_ & ent & _ & _ & _ & H). exact H. }
    destruct (@include_literal_answer_has nfkd answer extracted Hne Hents)
      as (x & Hx & Hxne & Hk).
    destruct (@nonempty_candidate_represented nfkd str_lower
                (include_literal_answer nfkd answer extracted)
                (if include_q_entities
                 then extract_entities _nlp list_of_set question else [])
                main_topic x) as (e & He & Hke).
    + unfold candidates. apply in_or_app. left. apply in_map. exact Hx.
    + exact Hxne.
    + exists e. split; [exact He | congruence].
  - cbv zeta. unfold include_literal_answer.
    destruct (nonempty answer && negb _); [right | left]; reflexivity.
Qed.

Lemma literal_answer_is_represented_witness :
  let _nlp := fun _ : ustr => [(lit "PARIS", lit "GPE")] in
  (exists e,
     In e (entities_of_pair nfkd_latin1 ascii_lower _nlp (fun s => s) false
             (lit "Capital of France?") (lit "Paris") None)
     /\ normalize_text nfkd_latin1 e = normalize_text nfkd_latin1 (lit "Paris"))
  /\ (let extracted := extract_entities _nlp (fun s => s) (lit "Paris") in
      include_literal_answer nfkd_latin1 (lit "Paris") extracted = extracted
      \/ include_literal_answer nfkd_latin1 (lit "Paris") extracted
         = extracted ++ [lit "Paris"]).
Proof.
  apply (@literal_answer_is_represented nfkd_latin1 ascii_lower
           (fun _ : ustr => [(lit "PARIS", lit "GPE")]) (fun s => s) false
           (lit "Capital of France?") (lit "Paris") None).
  - intros s x. reflexivity.
  - discriminate.
Defined.

(** With no entity from the extractor and no key entity, the answer is
    looked up, once. *)
Example answer_alone :
  entities_of_pair nfkd_latin1 ascii_lower (fun _ => []) (fun s => s) false
    (lit "What is the capital of France?") (lit "Paris") None
  = [lit "Paris"].
Proof. vm_compute. reflexivity. Qed.

(** X12: nothing is looked up exactly when no candidate is usable: the
    list of entities is empty if and only if every candidate is absent
    or empty. *)
Theorem unique_entities_empty_iff (nfkd str_lower : ustr -> ustr)
    (answer_entities question_entities : list ustr) (main_topic : option ustr) :
  unique_entities_to_fetch nfkd str_lower
    answer_entities question_entities main_topic = []
  <-> forall c, In (Some c)
                   (candidates answer_entities question_entities main_topic) ->
                c = [].
Proof.
  split.
  - intros H c Hin. destruct c as [|x c]; [reflexivity|]. exfalso.
    destruct (@nonempty_candidate_represented nfkd str_lower
                answer_entities question_entities main_topic (x :: c) Hin)
      as (e & He & _); [discriminate|].
    rewrite H in He. destruct He.
  - intros H.
    destruct (unique_entities_to_fetch nfkd str_lower
                answer_entities question_entities main_topic) as [|e out] eqn:E;
      [reflexivity|].
    exfalso.
    assert (He : In e (unique_entities_to_fetch nfkd str_lower
                         answer_entities question_entities main_topic)).
    { rewrite E. left. reflexivity. }
    apply entity_in_iff_last_seen, last_seen_candidate in He.
    destruct He as (Hin & Hne & _). apply Hne, H, Hin.
Qed.

(** ** utils/llm_utils.py: the structurer and the key-entity identifier *)

Ltac finish_io :=
  eexists; eexists;
  split; [apply f_equal2;
          [reflexivity
          | apply f_equal2; [|reflexivity];
            first [ symmetry; apply app_nil_r
                  | rewrite <- ?app_assoc; cbn [app]; reflexivity ] ]|].

(** X13: the structurer never raises and sends at most one request.
    When it returns a list, every item of the list is an object with a
    question and an answer key; when it returns the failure signal, the
    last thing it did was to report the failure with [st.error] or
    [st.warning]. *)
Theorem structure_qa_pairs_outcomes
    (json_loads : ustr -> exn + json) (client : Client) (text_input : ustr)
    (tr : trace) :
  exists (r : option (list json)) (new : trace),
    structure_qa_pairs json_loads client text_input (tr, tt)
      = (inr r, (tr ++ new, tt))
    /\ (llm_requests new <= 1)%nat
    /\ (forall items, r = Some items -> forallb is_qa_object items = true)
    /\ (r = None -> is_report (last_event new)).
Proof.
  unfold structure_qa_pairs. run_monad. unfold is_report, last_event.
  set (prompt := structure_prompt text_input).
  crunch; finish_io;
    cbn [llm_requests map List.last];
    (split; [lia|]);
    (split;
     [ intros its Hr; first [discriminate Hr | injection Hr as <-];
       first [reflexivity | assumption]
     | intros Hr; first [discriminate Hr | eexists; first [left; reflexivity | right; reflexivity]] ]).
Qed.

Lemma match_open_bracket {A} (c : N) (x y : A) :
  match c with 91 => x | _ => y end = if c =? 91 then x else y.
Proof.
  destruct c as [|p]; [reflexivity|].
  do 7 (destruct p as [p|p|]; try reflexivity).
Qed.

Lemma match_close_bracket {A} (c : N) (x y : A) :
  match c with 93 => x | _ => y end = if c =? 93 then x else y.
Proof.
  destruct c as [|p]; [reflexivity|].
  do 7 (destruct p as [p|p|]; try reflexivity).
Qed.

Lemma re_search_json_list_some text body :
  re_search_json_list text = Some body ->
  body = strip text /\ exists mid, body = 91 :: mid ++ [93].
Proof.
  unfold re_search_json_list.
  destruct (strip text) as [|c rest] eqn:E; [discriminate|].
  cbv zeta. rewrite match_open_bracket.
  destruct (N.eqb_spec c 91) as [->|Hc]; [|discriminate].
  destruct (rev rest) as [|d r] eqn:Er; [discriminate|].
  rewrite match_close_bracket.
  destruct (N.eqb_spec d 93) as [->|Hd]; [|discriminate].
  intros H; injection H as <-. split; [reflexivity|].
  exists (rev r). f_equal.
  apply (f_equal (@rev N)) in Er. rewrite rev_involutive in Er.
  exact Er.
Qed.

Lemma re_search_json_list_bracketed text mid :
  strip text = 91 :: mid ++ [93] ->
  re_search_json_list text = Some (strip text).
Proof.
  intros E. unfold re_search_json_list. rewrite E.
  rewrite rev_app_distr. reflexivity.
Qed.

(** X14: a response that is not one bracketed text, such as prose around
    or instead of the list, is a failure and not an empty result: the
    structurer returns the failure signal and reports the response as it
    came. *)
Theorem structure_qa_pairs_rejects_prose
    (json_loads : ustr -> exn + json) (client : Client) (text_input : ustr)
    (tr : trace) (text : ustr) (rest : list ustr) :
  strip text_input <> [] ->
  client tr haiku 2048%Z (structure_prompt text_input) = inr (text :: rest) ->
  (forall mid, strip text <> 91 :: mid ++ [93]) ->
  structure_qa_pairs json_loads client text_input (tr, tt)
  = (inr None,
     (tr ++ [EvMessagesCreate haiku 2048 (structure_prompt text_input);
             EvStError (lit "Could not extract JSON list from Claude's response:"
                          ++ nl ++ text)],
      tt)).
Proof.
  intros Hin Hresp Hprose. unfold structure_qa_pairs.
  destruct (strip text_input) as [|c s]; [contradiction|]. cbn [nonempty negb].
  run_monad. rewrite Hresp. cbn beta iota.
  destruct (re_search_json_list text) as [body|] eqn:E.
  - apply re_search_json_list_some in E. destruct E as (-> & mid & E).
    exfalso. exact (Hprose mid E).
  - cbn [fst snd]. rewrite <- app_assoc. reflexivity.
Qed.

Lemma structure_qa_pairs_rejects_prose_witness :
  let text := lit "Here are the pairs: []" in
  structure_qa_pairs (fun _ => inr JNull) (answering text) (lit "Q: 1+1? A: 2") ([], tt)
  = (inr None,
     ([] ++ [EvMessagesCreate haiku 2048 (structure_prompt (lit "Q: 1+1? A: 2"));
             EvStError (lit "Could not extract JSON list from Claude's response:"
                          ++ nl ++ text)],
      tt)).
Proof.
  apply (@structure_qa_pairs_rejects_prose (fun _ => inr JNull)
           (answering (lit "Here are the pairs: []")) (lit "Q: 1+1? A: 2") []
           (lit "Here are the pairs: []") []).
  - vm_compute. discriminate.
  - reflexivity.
  - intros mid. vm_compute. discriminate.
Defined.

(** X15: a response that, once stripped, is a bracketed text which
    decodes to a list of objects with both keys is returned as it was
    decoded, in its order, and nothing is reported; an empty list is a
    result like any other. *)
Theorem structure_qa_pairs_accepts_list
    (json_loads : ustr -> exn + json) (client : Client) (text_input : ustr)
    (tr : trace) (text : ustr) (rest : list ustr) (mid : ustr)
    (items : list json) :
  strip text_input <> [] ->
  client tr haiku 2048%Z (structure_prompt text_input) = inr (text :: rest) ->
  strip text = 91 :: mid ++ [93] ->
  json_loads (strip text) = inr (JArray items) ->
  forallb is_qa_object items = true ->
  structure_qa_pairs json_loads client text_input (tr, tt)
  = (inr (Some items),
     (tr ++ [EvMessagesCreate haiku 2048 (structure_prompt text_input)], tt)).
Proof.
  intros Hin Hresp Hbr Hjson Hok. unfold structure_qa_pairs.
  destruct (strip text_input) as [|c s]; [contradiction|]. cbn [nonempty negb].
  run_monad. rewrite Hresp. cbn beta iota.
  rewrite (re_search_json_list_bracketed _ _ Hbr). cbn beta iota.
  rewrite Hjson. cbn beta iota. rewrite Hok. reflexivity.
Qed.

Lemma structure_qa_pairs_accepts_list_witness :
  let pair := JObject [(lit "question", JString (lit "1+1?"));
                       (lit "answer", JString (lit "2"))] in
  structure_qa_pairs (fun _ => inr (JArray [pair])) (answering (lit " [x] "))
    (lit "Q: 1+1? A: 2") ([], tt)
  = (inr (Some [pair]),
     ([] ++ [EvMessagesCreate haiku 2048 (structure_prompt (lit "Q: 1+1? A: 2"))], tt)).
Proof.
  apply (@structure_qa_pairs_accepts_list
           (fun _ => inr (JArray [JObject [(lit "question", JString (lit "1+1?"));
                                           (lit "answer", JString (lit "2"))]]))
           (answering (lit " [x] ")) (lit "Q: 1+1? A: 2") []
           (lit " [x] ") [] (lit "x")).
  - vm_compute. discriminate.
  - reflexivity.
  - reflexivity.
  - reflexivity.
  - reflexivity.
Defined.

(** X16: the key-entity identifier never raises and sends exactly one
    request.  A topic that it returns is the response stripped of
    whitespace and then of quotes, is not empty and has no quote at
    either end.  A response that is empty after the stripping gives the
    absent result without any report; a request that raises gives the
    absent result after a warning. *)
Theorem identify_main_topic_outcomes
    (client : Client) (question answer : ustr) (tr : trace) :
  let request := EvMessagesCreate sonnet 50 (main_topic_prompt question answer) in
  let outcome := client tr sonnet 50%Z (main_topic_prompt question answer) in
  exists (r : option ustr) (new : trace),
    identify_main_topic client question answer (tr, tt)
      = (inr r, (tr ++ new, tt))
    /\ llm_requests new = 1%nat
    /\ (forall t, r = Some t ->
          t <> [] /\ strip_quotes t = t
          /\ new = [request]
          /\ exists text rest,
               outcome = inr (text :: rest) /\ t = strip_quotes (strip text))
    /\ (forall text rest,
          outcome = inr (text :: rest) -> strip_quotes (strip text) = [] ->
          r = None /\ new = [request])
    /\ (forall e, outcome = inl e ->
          r = None /\ exists msg, last_event new = Some (EvStWarning msg)).
Proof.
  intros request outcome. subst request outcome.
  unfold identify_main_topic. run_monad.
  set (prompt := main_topic_prompt question answer).
  destruct (client tr sonnet 50%Z prompt) as [e | [|text rest]]; cbn beta iota.
  - destruct (is_api_error e); cbn [fst snd]; finish_io;
      (split; [reflexivity|]); (split; [discriminate|]);
      (split; [discriminate|]);
      intros e' He; (split; [reflexivity | eexists; reflexivity]).
  - cbn [is_api_error exn_cls fst snd]. finish_io.
    split; [reflexivity|]. split; [discriminate|]. split; discriminate.
  - finish_io. split; [reflexivity|].
    destruct (strip_quotes (strip text)) as [|c t] eqn:E; cbn [nonempty].
    + split; [discriminate|]. split; [|discriminate].
      intros text' rest' H _. split; reflexivity.
    + split; [|split; [|discriminate]].
      * intros t' Ht. injection Ht as <-.
        split; [discriminate|]. split.
        -- rewrite <- E. apply strip_by_idempotent.
        -- split; [reflexivity|]. exists text, rest.
           split; [reflexivity | symmetry; exact E].
      * intros text' rest' H H0. injection H as <- <-. congruence.
Qed.

(** ** utils/wiki_utils.py: the shape of every result *)

Lemma nonempty_not_nil (s : ustr) : nonempty s = true -> s <> [].
Proof. destruct s; [discriminate | discriminate]. Qed.

Lemma resolver_run_shape
    (capitalize : ustr -> ustr) (world : World) (client : option Client)
    (entity_name question answer : ustr) (days : Z) (tr : trace) :
  exists (r : PageInfo) (new : trace),
    get_wikipedia_data capitalize world client entity_name question answer days tr
      = (inr r, tr ++ new)
    /\ (found r = false ->
          title r = to_title_case capitalize entity_name
          /\ length r = None /\ views r = None /\ url r = None
          /\ exists m, error r = Some m /\ m <> [])
    /\ (error r = None ->
          found r = true
          /\ exists n u v, length r = Some n /\ url r = Some u /\ views r = Some v)
    /\ (forall v, views r = Some v -> error r = None)
    /\ (llm_requests new <= 1)%nat.
Proof.
  unfold_resolver. unfold entity_name_title_case.
  set (t0 := to_title_case capitalize entity_name).
  crunch; finish_run; reduce_run; cbn [llm_requests];
    (split;
     [ intros Hf;
       first [ discriminate Hf
             | do 4 (split; [reflexivity|]);
               eexists; split;
               [ reflexivity
               | first [ message_nonempty
                       | apply nonempty_not_nil; reflexivity ] ] ] |]);
    (split;
     [ intros He;
       first [ discriminate He
             | split; [reflexivity | do 3 eexists; repeat split; reflexivity] ] |]);
    (split; [intros v Hv; first [discriminate Hv | reflexivity] | lia]).
Qed.

(** X17: three facts about every result of the resolver.  A result that
    is not found keeps the title-cased name as its title, has neither
    length nor views nor URL, and has a non-empty error message.  A
    result without error is found and has length, URL and views.  A
    result with views has no error. *)
Theorem wiki_result_invariants
    (capitalize : ustr -> ustr) (world : World) (client : option Client)
    (entity_name question answer : ustr) (days : Z) (tr : trace) :
  exists (r : PageInfo) (new : trace),
    get_wikipedia_data capitalize world client entity_name question answer days tr
      = (inr r, tr ++ new)
    /\ (found r = false ->
          title r = to_title_case capitalize entity_name
          /\ length r = None /\ views r = None /\ url r = None
          /\ exists m, error r = Some m /\ m <> [])
    /\ (error r = None ->
          found r = true
          /\ exists n u v, length r = Some n /\ url r = Some u /\ views r = Some v)
    /\ (forall v, views r = Some v -> error r = None).
Proof.
  destruct (resolver_run_shape capitalize world client entity_name question
              answer days tr) as (r & new & H1 & H2 & H3 & H4 & _).
  exists r, new. split; [exact H1|]. split; [exact H2|].
  split; [exact H3 | exact H4].
Qed.

(** X18: the status that the application shows for a result of the
    resolver is the found mark, or the failure mark followed by the
    error message of the result; the third branch of the expression,
    [Not Found] without a message, is never taken. *)
Theorem status_is_found_or_message
    (capitalize : ustr -> ustr) (world : World) (client : option Client)
    (entity_name question answer : ustr) (days : Z) (tr : trace) :
  exists (r : PageInfo) (new : trace),
    get_wikipedia_data capitalize world client entity_name question answer days tr
      = (inr r, tr ++ new)
    /\ (found r = true -> status_of r = [10003] ++ lit " Found")
    /\ (found r = false ->
          exists m, error r = Some m /\ m <> []
                    /\ status_of r = [10007] ++ lit " " ++ m).
Proof.
  destruct (resolver_run_shape capitalize world client entity_name question
              answer days tr) as (r & new & H1 & H2 & _).
  exists r, new. split; [exact H1|]. unfold status_of. split.
  - intros ->. reflexivity.
  - intros Hf. destruct (H2 Hf) as (_ & _ & _ & _ & m & Hm & Hne).
    exists m. rewrite Hf, Hm. repeat split; [exact Hne|].
    destruct m; [contradiction | reflexivity].
Qed.

(** ** app.py: the lookups of one pair *)

Lemma llm_requests_app a b :
  llm_requests (a ++ b) = (llm_requests a + llm_requests b)%nat.
Proof.
  induction a as [|ev a IH]; [reflexivity|].
  destruct ev; simpl; rewrite IH; reflexivity.
Qed.

Lemma entity_data_list_shape
    (capitalize : ustr -> ustr) (world : World) (client : option Client)
    (question answer : ustr) (entities : list ustr) (tr : trace) :
  exists (data : list PageInfo) (new : trace),
    entity_data_list capitalize world client question answer entities tr
      = (inr data, tr ++ new)
    /\ Forall2 (result_for capitalize) entities data
    /\ (llm_requests new <= List.length entities)%nat.
Proof.
  revert tr. induction entities as [|entity rest IH]; intros tr.
  - exists [], []. simpl. rewrite app_nil_r.
    split; [reflexivity|]. split; [constructor | lia].
  - destruct (resolver_run_shape capitalize world client entity question answer
                DEFAULT_VIEWS_DAYS tr)
      as (r & new1 & Hrun & Hnf & Hok & _ & Hllm).
    destruct (IH (tr ++ new1)) as (data & new2 & Hrest & Hall & Hllm2).
    exists (r :: data), (new1 ++ new2).
    cbn [entity_data_list]. rewrite Hrun, Hrest, app_assoc.
    split; [reflexivity|]. split.
    + constructor; [|exact Hall]. split.
      * intros Hf. destruct (Hnf Hf) as (Ht & _ & _ & _ & Hm).
        split; assumption.
      * intros He. apply Hok, He.
    + rewrite llm_requests_app. cbn [List.length]. lia.
Qed.


(** X20: the analysis of one pair never raises: after the one request for
    the key entity it returns one result for each entity of the merged
    list, and it sends at most one further request per entity. *)
Theorem analyse_pair_total
    (nfkd str_lower capitalize : ustr -> ustr)
    (_nlp : ustr -> list (ustr * ustr)) (list_of_set : list ustr -> list ustr)
    (world : World) (client : Client)
    (include_q_entities : bool) (question answer : ustr) (tr : trace) :
  exists (main_topic : option ustr) (data : list PageInfo) (new : trace),
    fst (identify_main_topic client question answer (tr, tt)) = inr main_topic
    /\ analyse_pair nfkd str_lower capitalize _nlp list_of_set world client
                    include_q_entities question answer tr
       = (inr data, tr ++ new)
    /\ List.length data
       = List.length (entities_of_pair nfkd str_lower _nlp list_of_set
                        include_q_entities question answer main_topic)
    /\ (llm_requests new <= 1 + List.length data)%nat.
Proof.
  unfold analyse_pair.
  assert (Htopic : exists r new,
             identify_main_topic client question answer (tr, tt)
             = (inr r, (tr ++ new, tt))
             /\ llm_requests new = 1%nat).
  { unfold identify_main_topic. run_monad.
    set (prompt := main_topic_prompt question answer).
    destruct (client tr sonnet 50%Z prompt) as [e | [|text rest]]; cbn beta iota.
    - destruct (is_api_error e); cbn [fst snd]; finish_io; reflexivity.
    - cbn [is_api_error exn_cls fst snd]. finish_io. reflexivity.
    - finish_io. reflexivity. }
  destruct Htopic as (main_topic & new1 & Hrun & Hllm).
  rewrite Hrun. cbn [fst].
  destruct (entity_data_list_shape capitalize world (Some client) question answer
              (entities_of_pair nfkd str_lower _nlp list_of_set include_q_entities
                                question answer main_topic)
              (tr ++ new1)) as (data & new2 & Hrest & Hall & Hllm2).
  exists main_topic, data, (new1 ++ new2).
  rewrite Hrest, app_assoc. split; [reflexivity|]. split; [reflexivity|].
  pose proof (Forall2_length Hall) as Hlen.
  split; [symmetry; exact Hlen|].
  rewrite llm_requests_app, Hllm. lia.
Qed.

(** ** utils/wiki_utils.py: the paths of a resolution *)

Lemma sum_views_fold_right items : sum_views items = fold_right Z.add 0%Z items.
Proof.
  unfold sum_views.
  assert (G : forall l a, fold_left Z.add l a = (a + fold_right Z.add 0 l)%Z).
  { induction l as [|z l IH]; intros a; simpl; [lia | rewrite IH; lia]. }
  rewrite G. reflexivity.
Qed.

(** X21: for an article, a page-view answer gives the sum of the views of
    its items, and the zero-views signal gives 0; in both cases the
    result has no error, so zero views are a count and not a failure. *)
Theorem pageviews_sum_or_zero
    (capitalize : ustr -> ustr) (world : World) (client : option Client)
    (entity_name question answer : ustr) (days : Z) (tr : trace)
    (cats : list ustr) (text fullurl : ustr) (window : ustr * ustr) :
  let t0 := to_title_case capitalize entity_name in
  let page := wiki_page world tr t0 in
  let outcome := per_article world (tr ++ [EvPage t0; EvNow days])
                   (page_title page) (fst window) (snd window) in
  page_exists page = inr true ->
  page_categories page = inr cats ->
  is_disambiguation_page cats = false ->
  page_text page = inr text ->
  page_fullurl page = inr fullurl ->
  date_window world (tr ++ [EvPage t0]) days = inr window ->
  (exists items, outcome = inr items)
  \/ (exists e, outcome = inl e /\ is_zero_views e = true) ->
  fst (get_wikipedia_data capitalize world client entity_name question answer
                          days tr)
  = inr {| title := page_title page;
           length := Some (Z.of_nat (List.length text));
           views := Some (match outcome with
                          | inr items => fold_right Z.add 0%Z items
                          | inl _ => 0%Z
                          end);
           url := Some fullurl;
           found := true;
           error := None |}.
Proof.
  intros t0 page outcome Hex Hcats Hdis Htext Hurl Hwin Hout. subst outcome.
  unfold_resolver. unfold entity_name_title_case. fold t0. fold page.
  rewrite Hex. reduce_run. rewrite Hcats. reduce_run. rewrite Hdis.
  rewrite Htext. reduce_run. rewrite Hurl. reduce_run. rewrite Hwin. reduce_run.
  replace (tr ++ [EvPage t0; EvNow days]) with ((tr ++ [EvPage t0]) ++ [EvNow days])
    in * by (rewrite <- app_assoc; reflexivity).
  destruct Hout as [(items & Hout) | (e & Hout & Hzv)]; rewrite Hout; reduce_run.
  - rewrite sum_views_fold_right. reflexivity.
  - rewrite Hzv. reduce_run. reflexivity.
Qed.

Lemma pageviews_sum_or_zero_witness :
  let t0 := to_title_case capitalize_ascii (lit "paris") in
  let page := wiki_page sample_world [] t0 in
  let window := (lit "20250101", lit "20260101") in
  let outcome := per_article sample_world ([] ++ [EvPage t0; EvNow 365])
                   (page_title page) (fst window) (snd window) in
  fst (get_wikipedia_data capitalize_ascii sample_world None (lit "paris") [] []
                          365 [])
  = inr {| title := page_title page;
           length := Some (Z.of_nat (List.length (lit "Lorem ipsum")));
           views := Some (match outcome with
                          | inr items => fold_right Z.add 0%Z items
                          | inl _ => 0%Z
                          end);
           url := Some (lit "https://en.wikipedia.org/wiki/Paris");
           found := true;
           error := None |}.
Proof.
  apply (@pageviews_sum_or_zero capitalize_ascii sample_world None
           (lit "paris") [] [] 365 []
           [lit "Category:Capitals"] (lit "Lorem ipsum")
           (lit "https://en.wikipedia.org/wiki/Paris")
           (lit "20250101", lit "20260101"));
    try reflexivity.
  left. eexists. reflexivity.
Defined.

Ltac unfold_resolver_only :=
  unfold get_wikipedia_data, resolve_body, fetch_selected, _populate_from_page,
    _fetch_page_views, api_page, on_unexpected;
  unfold ask, lift_result, try_except, st_warning, st_error, bind, ret, raise,
    emit, modify, lift_io;
  cbn [fst snd].

(** X22: on a disambiguation page, when the disambiguation resolver gives
    the absent answer (there is no client, the request fails, or the
    model says NONE or names no candidate), the result is not found, its
    title is the title-cased name, and its error names that title and
    lists the first five candidates; a page without links has the single
    candidate made of the title and the word disambiguation. *)
Theorem disambiguation_unresolved
    (capitalize : ustr -> ustr) (world : World) (client : option Client)
    (entity_name question answer : ustr) (days : Z) (tr : trace)
    (cats links : list ustr) :
  let t0 := to_title_case capitalize entity_name in
  let page := wiki_page world tr t0 in
  let options := options_of t0 links in
  page_exists page = inr true ->
  page_categories page = inr cats ->
  is_disambiguation_page cats = true ->
  page_links page = inr links ->
  fst (resolve_disambiguation client t0 options question answer
         (tr ++ [EvPage t0], tt)) = inr None ->
  fst (get_wikipedia_data capitalize world client entity_name question answer
                          days tr)
  = inr {| title := t0; length := None; views := None; url := None;
           found := false;
           error := Some (lit "Disambiguation: " ++ t0 ++ lit ". Options: "
                            ++ join (lit ", ") (firstn 5 options) ++ lit "...") |}.
Proof.
  intros t0 page options Hex Hcats Hdis Hlinks Hres.
  unfold_resolver_only. unfold entity_name_title_case. fold t0. fold page.
  rewrite Hex. reduce_run. rewrite Hcats. reduce_run. rewrite Hdis.
  rewrite Hlinks. reduce_run.
  change (if no_options links then [t0 ++ lit " (disambiguation)"] else links)
    with options.
  match goal with
  | |- context [resolve_disambiguation ?c ?n ?o ?qu ?an ?st] =>
      change (resolve_disambiguation c n o qu an st)
        with (resolve_disambiguation client t0 options question answer
                (tr ++ [EvPage t0], tt))
  end.
  destruct (resolve_disambiguation client t0 options question answer
              (tr ++ [EvPage t0], tt)) as [res [tr2 u]].
  cbn [fst] in Hres. subst res. reduce_run. reflexivity.
Qed.

Lemma disambiguation_unresolved_witness :
  let t0 := to_title_case capitalize_ascii (lit "mercury") in
  let options := options_of t0 [lit "Mercury (planet)"; lit "Mercury (element)";
                                lit "Mercury (myth)"] in
  fst (get_wikipedia_data capitalize_ascii sample_world None (lit "mercury") [] []
                          365 [])
  = inr {| title := t0; length := None; views := None; url := None;
           found := false;
           error := Some (lit "Disambiguation: " ++ t0 ++ lit ". Options: "
                            ++ join (lit ", ") (firstn 5 options) ++ lit "...") |}.
Proof.
  apply (@disambiguation_unresolved capitalize_ascii sample_world None
           (lit "mercury") [] [] 365 [] [disambiguation_category]
           [lit "Mercury (planet)"; lit "Mercury (element)"; lit "Mercury (myth)"]);
    reflexivity.
Defined.

Lemma resolver_choice_nonempty client entity_name options question answer s sel s' :
  resolve_disambiguation client entity_name options question answer s
    = (inr (Some sel), s') ->
  nonempty sel = true.
Proof.
  destruct client as [c|]; [|destruct s; discriminate].
  destruct (resolve_disambiguation_run c entity_name options question answer s)
    as (new & Hrun & _).
  rewrite Hrun. intros H. injection H as H _.
  destruct options as [|o options]; [discriminate|].
  apply chosen_title_member in H. destruct H as (_ & Hne & _).
  destruct sel; [contradiction | reflexivity].
Qed.

(** X23: on a disambiguation page, when the resolver chooses a candidate
    whose page exists and is an article, the result is found and has the
    title, the length and the URL of the candidate's page, not of the
    page that was looked up first; this holds whatever the page-view
    request for the candidate does. *)
Theorem disambiguation_resolved
    (capitalize : ustr -> ustr) (world : World) (client : option Client)
    (entity_name question answer : ustr) (days : Z) (tr tr2 : trace)
    (cats links cats2 : list ustr) (selected text fullurl : ustr) :
  let t0 := to_title_case capitalize entity_name in
  let page := wiki_page world tr t0 in
  let options := options_of t0 links in
  let chosen := wiki_page world tr2 selected in
  page_exists page = inr true ->
  page_categories page = inr cats ->
  is_disambiguation_page cats = true ->
  page_links page = inr links ->
  resolve_disambiguation client t0 options question answer (tr ++ [EvPage t0], tt)
    = (inr (Some selected), (tr2, tt)) ->
  page_exists chosen = inr true ->
  page_categories chosen = inr cats2 ->
  is_disambiguation_page cats2 = false ->
  page_text chosen = inr text ->
  page_fullurl chosen = inr fullurl ->
  exists (r : PageInfo),
    fst (get_wikipedia_data capitalize world client entity_name question answer
                            days tr) = inr r
    /\ found r = true
    /\ title r = page_title chosen
    /\ length r = Some (Z.of_nat (List.length text))
    /\ url r = Some fullurl.
Proof.
  intros t0 page options chosen Hex Hcats Hdis Hlinks Hres Hex2 Hcats2 Hdis2
    Htext Hurl.
  pose proof (resolver_choice_nonempty _ _ _ _ _ _ Hres) as Hne.
  unfold_resolver_only. unfold entity_name_title_case. fold t0. fold page.
  rewrite Hex. reduce_run. rewrite Hcats. reduce_run. rewrite Hdis.
  rewrite Hlinks. reduce_run.
  change (if no_options links then [t0 ++ lit " (disambiguation)"] else links)
    with options.
  match goal with
  | |- context [resolve_disambiguation ?c ?n ?o ?qu ?an ?st] =>
      change (resolve_disambiguation c n o qu an st)
        with (resolve_disambiguation client t0 options question answer
                (tr ++ [EvPage t0], tt))
  end.
  rewrite Hres. reduce_run. rewrite Hne. reduce_run.
  change (wiki_page world tr2 selected) with chosen.
  rewrite Hex2. reduce_run. rewrite Hcats2. reduce_run. rewrite Hdis2.
  cbn [negb]. rewrite Htext. reduce_run. rewrite Hurl. reduce_run.
  crunch; eexists; (split; [reflexivity|]); repeat split; reflexivity.
Qed.

Lemma disambiguation_resolved_witness :
  let t0 := to_title_case capitalize_ascii (lit "mercury") in
  let links := [lit "Mercury (planet)"; lit "Mercury (element)";
                lit "Mercury (myth)"] in
  let client := answering (lit "Mercury (planet)") in
  let tr2 := [EvPage t0;
              EvMessagesCreate haiku 50
                (disambiguation_prompt t0 (options_of t0 links) [] [])] in
  let chosen := wiki_page sample_world tr2 (lit "Mercury (planet)") in
  exists (r : PageInfo),
    fst (get_wikipedia_data capitalize_ascii sample_world (Some client)
           (lit "mercury") [] [] 365 []) = inr r
    /\ found r = true
    /\ title r = page_title chosen
    /\ length r = Some (Z.of_nat (List.length (lit "Lorem ipsum")))
    /\ url r = Some (lit "https://en.wikipedia.org/wiki/Mercury (planet)").
Proof.
  apply (@disambiguation_resolved capitalize_ascii sample_world
           (Some (answering (lit "Mercury (planet)")))
           (lit "mercury") [] [] 365 []
           [EvPage (to_title_case capitalize_ascii (lit "mercury"));
            EvMessagesCreate haiku 50
              (disambiguation_prompt
                 (to_title_case capitalize_ascii (lit "mercury"))
                 (options_of (to_title_case capitalize_ascii (lit "mercury"))
                    [lit "Mercury (planet)"; lit "Mercury (element)";
                     lit "Mercury (myth)"]) [] [])]
           [disambiguation_category]
           [lit "Mercury (planet)"; lit "Mercury (element)"; lit "Mercury (myth)"]
           [lit "Category:Planets"]
           (lit "Mercury (planet)") (lit "Lorem ipsum")
           (lit "https://en.wikipedia.org/wiki/Mercury (planet)"));
    reflexivity.
Defined.

(** ** utils/wiki_utils.py: a failed page-view request *)

(** The last step of a run that has read an article: the outcome of the
    page-view request. *)
Ltac finish_pageviews :=
  match goal with
  | |- context [per_article ?w ?h ?t ?a ?b] =>
      destruct (per_article w h t a b) eqn:?
  end;
  reduce_run;
  try match goal with
      | |- context [is_zero_views ?e] =>
          destruct (is_zero_views e) eqn:?; reduce_run
      end;
  eexists; (split; [reflexivity|]); do 4 (split; [reflexivity|]);
  intros err' Herr Hzv;
  first [ discriminate Herr
        | injection Herr as <-; first [congruence | reflexivity] ].

(** C5: when the resolver reads an article, be it the page under the
    title-cased name or the candidate chosen on a disambiguation page,
    the result has [found] true and the title, the length and the URL of
    that page, whatever the page-view request does.  When the request
    raises anything but the zero-views signal, the result is exactly the
    article data with [views] absent and the description of the failure
    as [error]. *)
Theorem pageview_failure_keeps_article_data
    (capitalize : ustr -> ustr) (world : World) (client : option Client)
    (entity_name question answer : ustr) (days : Z) (tr : trace)
    (page : WikipediaPage) (before : trace)
    (text fullurl : ustr) (window : ustr * ustr) :
  lands_on_article world client (to_title_case capitalize entity_name)
                   question answer tr page before ->
  page_text page = inr text ->
  page_fullurl page = inr fullurl ->
  date_window world before days = inr window ->
  exists (r : PageInfo),
    fst (get_wikipedia_data capitalize world client entity_name question answer
                            days tr) = inr r
    /\ found r = true
    /\ title r = page_title page
    /\ length r = Some (Z.of_nat (List.length text))
    /\ url r = Some fullurl
    /\ forall err,
         per_article world (before ++ [EvNow days])
                     (page_title page) (fst window) (snd window) = inl err ->
         is_zero_views err = false ->
         r = {| title := page_title page;
                length := Some (Z.of_nat (List.length text));
                views := None;
                url := Some fullurl;
                found := true;
                error := Some (lit "Pageview fetch error: " ++ exn_str err) |}.
Proof.
  intros Hland Htext Hurl Hwin.
  set (t0 := to_title_case capitalize entity_name) in *.
  destruct Hland as [(-> & -> & Hex & cats & Hcats & Hdis)
                    | (cats & links & selected & tr2 & cats2 & Hex1 & Hcats1 & Hdis1
                       & Hlinks & Hres & -> & -> & Hex & Hcats & Hdis)].
  - unfold_resolver_only. unfold entity_name_title_case. fold t0.
    rewrite Hex. reduce_run. rewrite Hcats. reduce_run. rewrite Hdis.
    rewrite Htext. reduce_run. rewrite Hurl. reduce_run. rewrite Hwin. reduce_run.
    finish_pageviews.
  - pose proof (resolver_choice_nonempty _ _ _ _ _ _ Hres) as Hne.
    unfold_resolver_only. unfold entity_name_title_case. fold t0.
    rewrite Hex1. reduce_run. rewrite Hcats1. reduce_run. rewrite Hdis1.
    rewrite Hlinks. reduce_run.
    change (if no_options links then [t0 ++ lit " (disambiguation)"] else links)
      with (options_of t0 links).
    match goal with
    | |- context [resolve_disambiguation ?c ?n ?o ?qu ?an ?st] =>
        change (resolve_disambiguation c n o qu an st)
          with (resolve_disambiguation client t0 (options_of t0 links)
                  question answer (tr ++ [EvPage t0], tt))
    end.
    rewrite Hres. reduce_run. rewrite Hne. reduce_run.
    rewrite Hex. reduce_run. rewrite Hcats. reduce_run. rewrite Hdis.
    cbn [negb]. rewrite Htext. reduce_run. rewrite Hurl. reduce_run.
    rewrite Hwin. reduce_run.
    finish_pageviews.
Qed.

Lemma pageview_failure_keeps_article_data_witness :
  let t0 := to_title_case capitalize_ascii (lit "mercury") in
  let links := [lit "Mercury (planet)"; lit "Mercury (element)";
                lit "Mercury (myth)"] in
  let client := Some (answering (lit "Mercury (planet)")) in
  let tr2 := [EvPage t0;
              EvMessagesCreate haiku 50
                (disambiguation_prompt t0 (options_of t0 links) [] [])] in
  let page := wiki_page sample_world tr2 (lit "Mercury (planet)") in
  let before := tr2 ++ [EvPage (lit "Mercury (planet)")] in
  let text := lit "Lorem ipsum" in
  let fullurl := lit "https://en.wikipedia.org/wiki/Mercury (planet)" in
  let window := (lit "20250101", lit "20260101") in
  exists (r : PageInfo),
    fst (get_wikipedia_data capitalize_ascii sample_world client (lit "mercury")
                            [] [] 365 []) = inr r
    /\ found r = true
    /\ title r = page_title page
    /\ length r = Some (Z.of_nat (List.length text))
    /\ url r = Some fullurl
    /\ forall err,
         per_article sample_world (before ++ [EvNow 365])
                     (page_title page) (fst window) (snd window) = inl err ->
         is_zero_views err = false ->
         r = {| title := page_title page;
                length := Some (Z.of_nat (List.length text));
                views := None;
                url := Some fullurl;
                found := true;
                error := Some (lit "Pageview fetch error: " ++ exn_str err) |}.
Proof.
  apply (@pageview_failure_keeps_article_data capitalize_ascii sample_world
           (Some (answering (lit "Mercury (planet)")))
           (lit "mercury") [] [] 365 []
           (wiki_page sample_world
              [EvPage (to_title_case capitalize_ascii (lit "mercury"));
               EvMessagesCreate haiku 50
                 (disambiguation_prompt
                    (to_title_case capitalize_ascii (lit "mercury"))
                    (options_of (to_title_case capitalize_ascii (lit "mercury"))
                       [lit "Mercury (planet)"; lit "Mercury (element)";
                        lit "Mercury (myth)"]) [] [])]
              (lit "Mercury (planet)"))
           ([EvPage (to_title_case capitalize_ascii (lit "mercury"));
             EvMessagesCreate haiku 50
               (disambiguation_prompt
                  (to_title_case capitalize_ascii (lit "mercury"))
                  (options_of (to_title_case capitalize_ascii (lit "mercury"))
                     [lit "Mercury (planet)"; lit "Mercury (element)";
                      lit "Mercury (myth)"]) [] [])]
              ++ [EvPage (lit "Mercury (planet)")])
           (lit "Lorem ipsum")
           (lit "https://en.wikipedia.org/wiki/Mercury (planet)")
           (lit "20250101", lit "20260101")).
  - right.
    exists [disambiguation_category],
           [lit "Mercury (planet)"; lit "Mercury (element)"; lit "Mercury (myth)"],
           (lit "Mercury (planet)"),
           [EvPage (to_title_case capitalize_ascii (lit "mercury"));
            EvMessagesCreate haiku 50
              (disambiguation_prompt
                 (to_title_case capitalize_ascii (lit "mercury"))
                 (options_of (to_title_case capitalize_ascii (lit "mercury"))
                    [lit "Mercury (planet)"; lit "Mercury (element)";
                     lit "Mercury (myth)"]) [] [])],
           [lit "Category:Planets"].
    repeat (split; [reflexivity|]). reflexivity.
  - reflexivity.
  - reflexivity.
  - reflexivity.
Defined.
